(** * extract_text_from_image.py: line reconstruction from OCR detections

    A shallow embedding of [install/extract_text_from_image.py].  The
    script asks EasyOCR for the detections of an image, sorts them by
    (vertical centre, left edge), cuts the sorted sequence into lines
    wherever two neighbours are more than [y_tolerance] apart, and
    prints the lines.

    Numbers.  A Python [float] is an IEEE 754 binary64 number.  It is
    modelled by [spec_float] with the operations of [SpecFloat] at
    precision 53 and maximal exponent 1024: every sum, difference and
    quotient is rounded to the nearest binary64 number, ties to even,
    as the program's are, and the comparisons are those of IEEE 754
    (a NaN is neither less than nor equal to anything).  [spec_float]
    has more finite values than binary64 has numbers; what is proved
    for all of them holds for the numbers, and every sample below is a
    number of binary64.

    Strings.  A Python [str] is a sequence of Unicode code points; it
    is modelled as a list of code points ([N]). *)

From Stdlib Require Import List Bool Arith ZArith NArith QArith Qabs Lia Lqa.
From Stdlib Require Import Ascii String.
From Stdlib Require Import Floats.SpecFloat.
From Stdlib Require Import Sorting.Sorted Sorting.Permutation.
From Stdlib Require Import Relations.Relation_Operators.
Import ListNotations.

Local Open Scope Q_scope.

(* ================================================================== *)
(** ** Numbers *)

Module F64.

Definition prec : Z := 53.
Definition emax : Z := 1024.

Definition float := spec_float.

(** [float(z)] for an integer [z]. *)
Definition of_int (z : Z) : float := binary_normalize prec emax z 0 false.

Definition add : float -> float -> float := SFadd prec emax.
Definition sub : float -> float -> float := SFsub prec emax.
Definition div : float -> float -> float := SFdiv prec emax.
Definition abs : float -> float := SFabs.

(** [a < b], [a == b] and [a <= b] *)
Definition ltb : float -> float -> bool := SFltb.
Definition eqb : float -> float -> bool := SFeqb.
Definition leb : float -> float -> bool := SFleb.

Definition is_nan (f : float) : bool :=
  match f with
  | S754_nan => true
  | _ => false
  end.

(** The decimal [n / d] as the program reads it, for instance 0.3 as
    [dec 3 10]: the binary64 number nearest to the quotient. *)
Definition dec (n d : Z) : float := div (of_int n) (of_int d).

(** The number a finite float stands for, exactly. *)
Definition value (f : float) : Q :=
  match f with
  | S754_finite s m e =>
      (if s then - inject_Z (Zpos m) else inject_Z (Zpos m)) * (2 ^ e)
  | _ => 0
  end.

(** The place of a float in the order of the comparisons, as three
    integers compared one after the other: the kind (negative infinity,
    negative, zero, positive, positive infinity), then exponent and
    mantissa.  A NaN has no place; it is given one past the end. *)
Definition rank1 (f : float) : Z :=
  match f with
  | S754_infinity true => -2
  | S754_finite true _ _ => -1
  | S754_zero _ => 0
  | S754_finite false _ _ => 1
  | S754_infinity false => 2
  | S754_nan => 3
  end.

Definition rank2 (f : float) : Z :=
  match f with
  | S754_finite true _ e => - e
  | S754_finite false _ e => e
  | _ => 0
  end.

Definition rank3 (f : float) : Z :=
  match f with
  | S754_finite true m _ => Zneg m
  | S754_finite false m _ => Zpos m
  | _ => 0
  end.

Definition rank_lt (a b : float) : Prop :=
  (rank1 a < rank1 b \/
   (rank1 a = rank1 b /\
    (rank2 a < rank2 b \/ (rank2 a = rank2 b /\ rank3 a < rank3 b))))%Z.

Definition rank_eq (a b : float) : Prop :=
  (rank1 a = rank1 b /\ rank2 a = rank2 b /\ rank3 a = rank3 b)%Z.

End F64.

(* ================================================================== *)
(** ** Strings *)

Module Str.

Definition char := N.
Definition str := list char.

(** An ASCII literal as a [str]. *)
Definition lit (s : string) : str :=
  List.map N_of_ascii (list_ascii_of_string s).

(** [c.isspace()] for a single code point, after CPython's
    [_PyUnicode_IsWhitespace]. *)
Definition isspace (c : char) : bool :=
  (((9 <=? c) && (c <=? 13)) || ((28 <=? c) && (c <=? 32))
   || (c =? 133) || (c =? 160) || (c =? 5760)
   || ((8192 <=? c) && (c <=? 8202))
   || (c =? 8232) || (c =? 8233) || (c =? 8239) || (c =? 8287)
   || (c =? 12288))%N%bool.

Fixpoint lstrip (s : str) : str :=
  match s with
  | [] => []
  | c :: r => if isspace c then lstrip r else s
  end.

Definition rstrip (s : str) : str := rev (lstrip (rev s)).

(** [s.strip()] *)
Definition strip (s : str) : str := rstrip (lstrip s).

(** [sep.join(parts)] *)
Fixpoint join (sep : str) (parts : list str) : str :=
  match parts with
  | [] => []
  | p :: rest =>
      match rest with
      | [] => p
      | _ :: _ => p ++ sep ++ join sep rest
      end
  end.

Definition space : str := lit " ".
Definition newline : str := [10%N].

End Str.
Import Str.

(* ================================================================== *)
(** ** Detections *)

Definition point := (F64.float * F64.float)%type.

(** [bbox is a list of 4 points: [[x1, y1], [x2, y2], [x3, y3], [x4, y4]]] *)
Record bbox := Bbox { p1 : point; p2 : point; p3 : point; p4 : point }.

Definition points (b : bbox) : list point := [p1 b; p2 b; p3 b; p4 b].

(** One element of [results]: [(bbox, text, confidence)]. *)
Record detection := Detection {
  d_bbox : bbox;
  d_text : str;
  d_confidence : F64.float
}.

(** [sum(xs)]: start from the integer 0, add from the left, each sum
    rounded. *)
Definition py_sum (xs : list F64.float) : F64.float :=
  fold_left F64.add xs (F64.of_int 0).

(** [min] of a sequence whose first item is [x0]: keep the current
    minimum, replace it by an item that is strictly smaller. *)
Definition py_min_from (x0 : F64.float) (rest : list F64.float) : F64.float :=
  fold_left (fun m v => if F64.ltb v m then v else m) rest x0.

Definition get_y_center (b : bbox) : F64.float :=
  let y_coords := List.map snd (points b) in
  F64.div (py_sum y_coords) (F64.of_int (Z.of_nat (List.length y_coords))).

Definition get_x_min (b : bbox) : F64.float :=
  let x_coords := List.map fst (points b) in
  match x_coords with
  | [] => F64.of_int 0 (* not reached: a bbox has four points *)
  | x0 :: rest => py_min_from x0 rest
  end.

(* ================================================================== *)
(** ** Sorting *)

(** The sort key [(get_y_center(r[0]), get_x_min(r[0]))]. *)
Definition sort_key (r : detection) : F64.float * F64.float :=
  (get_y_center (d_bbox r), get_x_min (d_bbox r)).

(** [k1 < k2] on 2-tuples: the first position where the tuples differ
    (by [==]) decides; equal tuples are not less. *)
Definition key_ltb (k1 k2 : F64.float * F64.float) : bool :=
  if F64.eqb (fst k1) (fst k2)
  then if F64.eqb (snd k1) (snd k2) then false
       else F64.ltb (snd k1) (snd k2)
  else F64.ltb (fst k1) (fst k2).

(** [sorted] is a stable sort that compares keys with [<] only.  It is
    modelled by stable insertion, the strategy [list.sort] applies to
    short runs: the items are taken from the left, and each one is put
    in front of the first item of the sorted prefix whose key is
    strictly greater.  On keys that are numbers every other stable sort
    returns the same sequence ([sorted_results_unique]); what
    [list.sort] makes of keys with a NaN among them, which no
    comparison orders, is outside the model. *)
Fixpoint insert_sorted (x : detection) (acc : list detection) : list detection :=
  match acc with
  | [] => [x]
  | y :: rest =>
      if key_ltb (sort_key x) (sort_key y) then x :: acc
      else y :: insert_sorted x rest
  end.

Definition sorted_from (acc results : list detection) : list detection :=
  fold_left (fun a x => insert_sorted x a) results acc.

Definition sorted_results (results : list detection) : list detection :=
  sorted_from [] results.

(* ================================================================== *)
(** ** Grouping into lines *)

Definition y_tolerance : F64.float := F64.of_int 10.

(** The variables the grouping loop assigns. *)
Record walk_state := WalkState {
  line_groups : list (list detection);
  current_line : list detection;
  last_y : option F64.float
}.

Definition walk_init : walk_state := WalkState [] [] None.

(** [abs(current_y - last_y) > y_tolerance] *)
Definition new_line_detected (current_y ly : F64.float) : bool :=
  F64.ltb y_tolerance (F64.abs (F64.sub current_y ly)).

(** One iteration of [for (bbox, text, confidence) in sorted_results]. *)
Definition walk_step (st : walk_state) (r : detection) : walk_state :=
  let current_y := get_y_center (d_bbox r) in
  let st1 :=
    match last_y st with
    | Some ly =>
        if new_line_detected current_y ly then
          match current_line st with
          | _ :: _ =>
              WalkState (line_groups st ++ [current_line st]) [] (last_y st)
          | [] => st
          end
        else st
    | None => st
    end in
  WalkState (line_groups st1) (current_line st1 ++ [r]) (Some current_y).

Definition walk (st : walk_state) (rs : list detection) : walk_state :=
  fold_left walk_step rs st.

(** [# Add the last line] *)
Definition add_last_line (st : walk_state) : list (list detection) :=
  match current_line st with
  | _ :: _ => line_groups st ++ [current_line st]
  | [] => line_groups st
  end.

(** The loop and the closing statement, on any sequence. *)
Definition group_lines (rs : list detection) : list (list detection) :=
  add_last_line (walk walk_init rs).

(** [line_groups] as the program has it after line 94. *)
Definition line_groups_of (results : list detection) : list (list detection) :=
  group_lines (sorted_results results).

(* ================================================================== *)
(** ** Text assembly *)

(** One iteration of [for line_group in line_groups]. *)
Definition extract_step (extracted_lines : list str) (line_group : list detection)
  : list str :=
  let line_text_parts := List.map d_text line_group in
  match line_text_parts with
  | _ :: _ => extracted_lines ++ [join space line_text_parts]
  | [] => extracted_lines
  end.

Definition extracted_lines_of (groups : list (list detection)) : list str :=
  fold_left extract_step groups [].

(** The Line Reconstructor: [extracted_text] as a function of [results]. *)
Definition extracted_text (results : list detection) : str :=
  join newline (extracted_lines_of (line_groups_of results)).

(* ================================================================== *)
(** ** The program *)

(** What [reader.readtext] (with the construction of the reader before
    it) gives: a list of detections, or an exception with its text. *)
Inductive ocr_result :=
| Returns (results : list detection)
| Raises (e : str).

(** What [import easyocr] does: it succeeds, it raises [ImportError],
    or it raises something else, for which the interpreter will print
    [report] under the traceback header. *)
Inductive import_result :=
| Imported
| NoModule
| ImportCrashes (report : str).

(** What an invocation sees of the outside world.  [print_raises text]
    is the text of the exception that [print(text)] raises when standard
    output cannot take [text] (an encoding error); nothing is written
    then. *)
Record environment := Environment {
  argv : list str;
  path_exists : str -> bool;
  import_easyocr : import_result;
  readtext : str -> ocr_result;
  print_raises : str -> option str
}.

Record outcome := Outcome {
  exit_code : Z;
  stdout : str;
  stderr : str
}.

(** How a call of [main] ends: it returns its exit code, having written
    to the two streams, or an exception leaves it. *)
Inductive completion :=
| Return (o : outcome)
| Escapes (report : str).

(** [write_error(message)] on an empty standard error. *)
Definition write_error (message : str) : str := message ++ newline.

Definition main (env : environment) : completion :=
  if negb (List.length (argv env) =? 2)%nat then
    Return (Outcome 1 []
      (write_error (lit "Usage: extract_text_from_image.py <image_path>")))
  else
    let image_path := nth 1 (argv env) [] in
    if negb (path_exists env image_path) then
      Return (Outcome 1 []
        (write_error (lit "Error: Image file does not exist: " ++ image_path)))
    else
      match import_easyocr env with
      | NoModule =>
          Return (Outcome 1 []
            (write_error (lit "Error: easyocr module not found. Please install it with: pip install easyocr")))
      | ImportCrashes report => Escapes report
      | Imported =>
          match readtext env image_path with
          | Raises e =>
              Return (Outcome 1 []
                (write_error (lit "Error: EasyOCR text extraction failed: " ++ e)))
          | Returns results =>
              let text := extracted_text results in
              match strip text with
              | [] => Return (Outcome 1 [] [])
              | _ :: _ =>
                  match print_raises env text with
                  | Some e =>
                      Return (Outcome 1 []
                        (write_error
                           (lit "Error: EasyOCR text extraction failed: " ++ e)))
                  | None => Return (Outcome 0 (text ++ newline) [])
                  end
              end
          end
      end.

(** [sys.exit(main())]: the process ends with the code [main] returns;
    when an exception leaves [main], the interpreter prints the
    traceback to standard error and the process ends with code 1. *)
Definition script (env : environment) : outcome :=
  match main env with
  | Return o => o
  | Escapes report =>
      Outcome 1 [] (lit "Traceback (most recent call last):" ++ newline ++ report)
  end.

(* ================================================================== *)
(** ** Positions and groups *)

(** The index of the group that holds position [i] of [concat gs]. *)
Fixpoint group_index {A : Type} (gs : list (list A)) (i : nat) : option nat :=
  match gs with
  | [] => None
  | g :: rest =>
      if (i <? List.length g)%nat then Some 0%nat
      else option_map S (group_index rest (i - List.length g))
  end.

(* ================================================================== *)
(** ** Sample detections *)

Definition one : F64.float := F64.of_int 1.

(** A quad with integer coordinates. *)
Definition quad (x1 y1 x2 y2 x3 y3 x4 y4 : Z) : bbox :=
  Bbox (F64.of_int x1, F64.of_int y1) (F64.of_int x2, F64.of_int y2)
       (F64.of_int x3, F64.of_int y3) (F64.of_int x4, F64.of_int y4).

Definition hello (c : F64.float) : detection :=
  Detection (quad 0 0 10 0 10 5 0 5) (lit "Hello") c.
Definition world (c : F64.float) : detection :=
  Detection (quad 20 1 30 1 30 6 20 6) (lit "World") c.
Definition goodbye (c : F64.float) : detection :=
  Detection (quad 0 50 10 50 10 55 0 55) (lit "Goodbye") c.
Definition blank (c : F64.float) : detection :=
  Detection (quad 0 0 10 0 10 5 0 5) [] c.

(** Two detections on the quad of "Hello": a full tie of the keys. *)
Definition tie_a (c : F64.float) : detection :=
  Detection (quad 0 0 10 0 10 5 0 5) (lit "A") c.
Definition tie_b (c : F64.float) : detection :=
  Detection (quad 0 0 10 0 10 5 0 5) (lit "B") c.

(** A flat detection on the height [y]. *)
Definition word_at (y : Z) (t : string) : detection :=
  Detection (quad 0 y 10 y 10 y 0 y) (lit t) one.

(** "World" on the height of "Hello", to its right. *)
Definition world_level (c : F64.float) : detection :=
  Detection (quad 20 0 30 0 30 5 20 5) (lit "World") c.

(** A detection from [x] to [x + 10] whose four points have the
    y-coordinates [y1 .. y4], given in tenths. *)
Definition tenths (x y1 y2 y3 y4 : Z) (t : string) : detection :=
  Detection
    (Bbox (F64.of_int x, F64.dec y1 10) (F64.of_int (x + 10), F64.dec y2 10)
          (F64.of_int (x + 10), F64.dec y3 10) (F64.of_int x, F64.dec y4 10))
    (lit t) one.

(** Rising and falling corners 0.1, 0.2, 0.3, 0.4: the same four
    y-coordinates in two orders. *)
Definition rising (x : Z) (t : string) : detection := tenths x 1 2 3 4 t.
Definition falling (x : Z) (t : string) : detection := tenths x 4 3 2 1 t.

(** Flat detections on the heights 0.3 and 10.3. *)
Definition low_03 : detection := tenths 0 3 3 3 3 "a".
Definition high_103 : detection := tenths 0 103 103 103 103 "b".

(** An invocation on an existing image for which recognition returns
    [results] and standard output takes every text. *)
Definition sample_env (results : list detection) : environment :=
  Environment [lit "extract_text_from_image.py"; lit "shot.png"]
              (fun _ => true) Imported (fun _ => Returns results)
              (fun _ => None).

(* ================================================================== *)
(** ** The Line Reconstructor as a machine

    Lines 71 to 105 once more, as a transition relation: one rule per
    statement and per branch, the branch conditions as premises. *)

Inductive pc :=
| AtSort
| AtWalk (todo : list detection)
| AtLastLine
| AtExtract (todo : list (list detection))
| AtJoin
| Finished (text : str).

Record vars := Vars {
  v_results : list detection;
  v_sorted_results : list detection;
  v_line_groups : list (list detection);
  v_current_line : list detection;
  v_last_y : option F64.float;
  v_extracted_lines : list str
}.

Definition config := (pc * vars)%type.

Definition start (results : list detection) : config :=
  (AtSort, Vars results [] [] [] None []).

Definition set_sorted (v : vars) (s : list detection) : vars :=
  Vars (v_results v) s [] [] None (v_extracted_lines v).

Definition append_current (v : vars) (r : detection) : vars :=
  Vars (v_results v) (v_sorted_results v) (v_line_groups v)
       (v_current_line v ++ [r]) (Some (get_y_center (d_bbox r)))
       (v_extracted_lines v).

Definition close_current (v : vars) : vars :=
  Vars (v_results v) (v_sorted_results v)
       (v_line_groups v ++ [v_current_line v]) [] (v_last_y v)
       (v_extracted_lines v).

Definition append_line (v : vars) (line : str) : vars :=
  Vars (v_results v) (v_sorted_results v) (v_line_groups v)
       (v_current_line v) (v_last_y v) (v_extracted_lines v ++ [line]).

Definition clear_lines (v : vars) : vars :=
  Vars (v_results v) (v_sorted_results v) (v_line_groups v)
       (v_current_line v) (v_last_y v) [].

Inductive exec : config -> config -> Prop :=
| exec_sort v :
    exec (AtSort, v)
         (AtWalk (sorted_results (v_results v)),
          set_sorted v (sorted_results (v_results v)))
| exec_first r todo v :
    v_last_y v = None ->
    exec (AtWalk (r :: todo), v) (AtWalk todo, append_current v r)
| exec_same_line r todo v ly :
    v_last_y v = Some ly ->
    new_line_detected (get_y_center (d_bbox r)) ly = false ->
    exec (AtWalk (r :: todo), v) (AtWalk todo, append_current v r)
| exec_new_line r todo v ly :
    v_last_y v = Some ly ->
    new_line_detected (get_y_center (d_bbox r)) ly = true ->
    v_current_line v <> [] ->
    exec (AtWalk (r :: todo), v)
         (AtWalk todo, append_current (close_current v) r)
| exec_new_line_nothing_open r todo v ly :
    v_last_y v = Some ly ->
    new_line_detected (get_y_center (d_bbox r)) ly = true ->
    v_current_line v = [] ->
    exec (AtWalk (r :: todo), v) (AtWalk todo, append_current v r)
| exec_walk_done v :
    exec (AtWalk [], v) (AtLastLine, v)
| exec_last_line v :
    v_current_line v <> [] ->
    exec (AtLastLine, v)
         (AtExtract (v_line_groups v ++ [v_current_line v]),
          clear_lines (close_current v))
| exec_no_last_line v :
    v_current_line v = [] ->
    exec (AtLastLine, v) (AtExtract (v_line_groups v), clear_lines v)
| exec_extract g todo v :
    List.map d_text g <> [] ->
    exec (AtExtract (g :: todo), v)
         (AtExtract todo, append_line v (join space (List.map d_text g)))
| exec_extract_nothing g todo v :
    List.map d_text g = [] ->
    exec (AtExtract (g :: todo), v) (AtExtract todo, v)
| exec_extract_done v :
    exec (AtExtract [], v) (AtJoin, v)
| exec_join v :
    exec (AtJoin, v) (Finished (join newline (v_extracted_lines v)), v).

(** The loop variables of a configuration, as the state of [walk]. *)
Definition walk_of (v : vars) : walk_state :=
  WalkState (v_line_groups v) (v_current_line v) (v_last_y v).

Definition reaches : config -> config -> Prop := clos_refl_trans_1n config exec.

(** An evaluation of the Line Reconstructor on [results] that ends with
    the document [text]. *)
Definition reconstructs (results : list detection) (text : str) : Prop :=
  exists v, reaches (start results) (Finished text, v).

(* ================================================================== *)
(** ** Properties that claims refer to *)

(** [f] is a number: anything but a NaN. *)
Definition number (f : F64.float) : Prop := F64.is_nan f = false.

(** [f] is zero or a finite number: no infinity and no NaN. *)
Definition finite (f : F64.float) : bool :=
  match f with
  | S754_zero _ | S754_finite _ _ _ => true
  | _ => false
  end.

(** Neither key of [r] is a NaN. *)
Definition numeric_keys (r : detection) : Prop :=
  number (get_y_center (d_bbox r)) /\ number (get_x_min (d_bbox r)).

(** [a] is not after [b] in the order of the keys: first by vertical
    centre, then by left edge, as the program compares them. *)
Definition by_key (a b : detection) : Prop :=
  F64.ltb (get_y_center (d_bbox a)) (get_y_center (d_bbox b)) = true \/
  (F64.eqb (get_y_center (d_bbox a)) (get_y_center (d_bbox b)) = true /\
   F64.leb (get_x_min (d_bbox a)) (get_x_min (d_bbox b)) = true).

(** The same, on the places of the keys in the order. *)
Definition key_le (k1 k2 : F64.float * F64.float) : Prop :=
  F64.rank_lt (fst k1) (fst k2) \/
  (F64.rank_eq (fst k1) (fst k2) /\
   (F64.rank_lt (snd k1) (snd k2) \/ F64.rank_eq (snd k1) (snd k2))).

Definition kle (a b : detection) : Prop := key_le (sort_key a) (sort_key b).

(** Both keys of [r] are equal (as numbers) to those of [k]. *)
Definition has_key (k : F64.float * F64.float) (r : detection) : bool :=
  F64.eqb (fst (sort_key r)) (fst k) && F64.eqb (snd (sort_key r)) (snd k).

(** Equal up to the confidence. *)
Definition same_but_confidence (a b : detection) : Prop :=
  d_bbox a = d_bbox b /\ d_text a = d_text b.

(** The text is empty after trimming. *)
Definition blank_text (s : str) : Prop := strip s = [].

(** The line a group contributes to the document (line 102). *)
Definition line_of (line_group : list detection) : str :=
  join space (List.map d_text line_group).

(** The arithmetic mean of the four y-coordinates, exactly. *)
Definition exact_mean (b : bbox) : Q :=
  (F64.value (snd (p1 b)) + F64.value (snd (p2 b))
   + F64.value (snd (p3 b)) + F64.value (snd (p4 b))) / 4.

(** The groups the loop leaves behind when it is entered with the open
    line [cur] (not empty) and [last_y = ly], as a recursion on the
    detections still to come.  [walk_chunks] relates it to [walk]. *)
Fixpoint chunks (cur : list detection) (ly : F64.float) (l : list detection)
  : list (list detection) :=
  match l with
  | [] => [cur]
  | r :: rest =>
      let current_y := get_y_center (d_bbox r) in
      if new_line_detected current_y ly
      then cur :: chunks [r] current_y rest
      else chunks (cur ++ [r]) current_y rest
  end.

(* ================================================================== *)
(** ** The document in one pass *)

(** What follows the text of a detection with centre [ly]: before each
    further detection a newline if it starts a line, a space if not. *)
Fixpoint glue_from (ly : F64.float) (l : list detection) : str :=
  match l with
  | [] => []
  | r :: rest =>
      let current_y := get_y_center (d_bbox r) in
      (if new_line_detected current_y ly then newline else space)
        ++ d_text r ++ glue_from current_y rest
  end.

Definition glue (l : list detection) : str :=
  match l with
  | [] => []
  | r :: rest => d_text r ++ glue_from (get_y_center (d_bbox r)) rest
  end.

(** The number of detections of [l] that start a line, [ly] being the
    centre of the detection before [l]. *)
Fixpoint count_breaks (ly : F64.float) (l : list detection) : nat :=
  match l with
  | [] => 0
  | r :: rest =>
      let current_y := get_y_center (d_bbox r) in
      (if new_line_detected current_y ly then 1 else 0)
        + count_breaks current_y rest
  end.

(** The program's test finds [a], coming after [b], on the line of [b]. *)
Definition close (a b : detection) : Prop :=
  new_line_detected (get_y_center (d_bbox a)) (get_y_center (d_bbox b)) = false.

(** The program's test separates the two, whichever comes first. *)
Definition far (a b : detection) : Prop :=
  new_line_detected (get_y_center (d_bbox a)) (get_y_center (d_bbox b)) = true /\
  new_line_detected (get_y_center (d_bbox b)) (get_y_center (d_bbox a)) = true.

(** Each detection is [close] to the one before it. *)
Fixpoint chain (g : list detection) : Prop :=
  match g with
  | [] => True
  | a :: rest =>
      match rest with
      | [] => True
      | b :: _ => close b a /\ chain rest
      end
  end.

(** No two detections have the same key pair. *)
Definition distinct_keys (results : list detection) : Prop :=
  forall k, (List.length (filter (has_key k) results) <= 1)%nat.

(** The first characters of [s] are those of [prefix]. *)
Definition starts_with (prefix s : str) : Prop := exists rest, s = prefix ++ rest.

(** An invocation whose checks before recognition all pass. *)
Definition checks_pass (env : environment) : Prop :=
  List.length (argv env) = 2%nat /\
  path_exists env (nth 1 (argv env) []) = true /\
  import_easyocr env = Imported.

(* ================================================================== *)
(** * Theorems *)

(* ------------------------------------------------------------------ *)
(** ** The comparisons of binary64 *)

Ltac float_cases a b :=
  destruct a as [[|]|[|]| |[|] ?m ?e]; destruct b as [[|]|[|]| |[|] ?m ?e];
  unfold number, F64.ltb, F64.eqb, F64.leb, SFltb, SFeqb, SFleb, SFcompare,
         F64.rank_lt, F64.rank_eq;
  cbn [F64.is_nan F64.rank1 F64.rank2 F64.rank3].

Ltac compare_cases :=
  repeat match goal with
         | |- context [Pos.compare_cont Eq ?m1 ?m2] =>
             change (Pos.compare_cont Eq m1 m2) with (Pos.compare m1 m2);
             destruct (Pos.compare_spec m1 m2)
         | |- context [Z.compare ?e1 ?e2] => destruct (Z.compare_spec e1 e2)
         end.

Ltac order_facts :=
  cbn [CompOpp];
  split;
  [ intro; try discriminate; repeat split; try reflexivity; lia
  | intros (? & ? & ?); try discriminate; try reflexivity; lia ].

Lemma ltb_rank (a b : F64.float) :
  F64.ltb a b = true <-> number a /\ number b /\ F64.rank_lt a b.
Proof. float_cases a b; compare_cases; order_facts. Qed.

Lemma eqb_rank (a b : F64.float) :
  F64.eqb a b = true <-> number a /\ number b /\ F64.rank_eq a b.
Proof. float_cases a b; compare_cases; order_facts. Qed.

Lemma leb_rank (a b : F64.float) :
  F64.leb a b = true <->
  number a /\ number b /\ (F64.rank_lt a b \/ F64.rank_eq a b).
Proof. float_cases a b; compare_cases; order_facts. Qed.

Lemma rank_total (a b : F64.float) :
  F64.rank_lt a b \/ F64.rank_eq a b \/ F64.rank_lt b a.
Proof. unfold F64.rank_lt, F64.rank_eq. lia. Qed.

Lemma ltb_false_rank (a b : F64.float) :
  number a -> number b ->
  (F64.ltb a b = false <-> F64.rank_lt b a \/ F64.rank_eq b a).
Proof.
  intros Ha Hb. rewrite <- not_true_iff_false, ltb_rank.
  unfold F64.rank_lt, F64.rank_eq. split.
  - intro H. assert (~ F64.rank_lt a b) by tauto.
    unfold F64.rank_lt in *. lia.
  - intros H (_ & _ & H'). lia.
Qed.

Lemma eqb_false_rank (a b : F64.float) :
  number a -> number b ->
  (F64.eqb a b = false <-> F64.rank_lt a b \/ F64.rank_lt b a).
Proof.
  intros Ha Hb. rewrite <- not_true_iff_false, eqb_rank.
  unfold F64.rank_lt, F64.rank_eq. split.
  - intro H. assert (~ F64.rank_eq a b) by tauto.
    unfold F64.rank_eq in *. lia.
  - intros H (_ & _ & H'). lia.
Qed.

Lemma ltb_trans (a b c : F64.float) :
  F64.ltb a b = true -> F64.ltb b c = true -> F64.ltb a c = true.
Proof.
  rewrite !ltb_rank. unfold F64.rank_lt.
  intros (Ha & Hb & H1) (_ & Hc & H2). repeat split; try assumption. lia.
Qed.

Lemma ltb_irrefl (a : F64.float) : F64.ltb a a = false.
Proof.
  apply not_true_iff_false. rewrite ltb_rank. unfold F64.rank_lt.
  intros (_ & _ & H). lia.
Qed.

(* ------------------------------------------------------------------ *)
(** ** The order of the keys *)

Ltac ranks := unfold key_le, F64.rank_lt, F64.rank_eq in *; cbn [fst snd] in *.

Lemma key_ltb_iff (k1 k2 : F64.float * F64.float) :
  number (fst k1) -> number (snd k1) -> number (fst k2) -> number (snd k2) ->
  (key_ltb k1 k2 = true <->
   F64.rank_lt (fst k1) (fst k2) \/
   (F64.rank_eq (fst k1) (fst k2) /\ F64.rank_lt (snd k1) (snd k2))).
Proof.
  intros N1 N1' N2 N2'. unfold key_ltb.
  destruct (F64.eqb (fst k1) (fst k2)) eqn:Ey.
  - apply eqb_rank in Ey. destruct Ey as (_ & _ & Ey).
    destruct (F64.eqb (snd k1) (snd k2)) eqn:Ex.
    + apply eqb_rank in Ex. destruct Ex as (_ & _ & Ex).
      split; [discriminate |]. ranks. lia.
    + apply (eqb_false_rank _ _ N1' N2') in Ex. rewrite ltb_rank.
      split; [intros (_ & _ & H) | intro H; repeat split; try assumption];
        ranks; lia.
  - apply (eqb_false_rank _ _ N1 N2) in Ey. rewrite ltb_rank.
    split; [intros (_ & _ & H) | intro H; repeat split; try assumption];
      ranks; lia.
Qed.

Lemma key_ltb_false_iff (k1 k2 : F64.float * F64.float) :
  number (fst k1) -> number (snd k1) -> number (fst k2) -> number (snd k2) ->
  (key_ltb k1 k2 = false <-> key_le k2 k1).
Proof.
  intros N1 N1' N2 N2'.
  rewrite <- not_true_iff_false, (key_ltb_iff k1 k2 N1 N1' N2 N2').
  split.
  - intro H.
    assert (H1 : ~ F64.rank_lt (fst k1) (fst k2)) by tauto.
    assert (H2 : ~ (F64.rank_eq (fst k1) (fst k2) /\
                    F64.rank_lt (snd k1) (snd k2))) by tauto.
    clear H. ranks. lia.
  - intros H H'. ranks. lia.
Qed.

Lemma key_le_trans (a b c : F64.float * F64.float) :
  key_le a b -> key_le b c -> key_le a c.
Proof. intros H1 H2. ranks. lia. Qed.

Lemma key_le_refl (a : F64.float * F64.float) : key_le a a.
Proof. ranks. lia. Qed.

Lemma key_lt_le (a b : F64.float * F64.float) :
  number (fst a) -> number (snd a) -> number (fst b) -> number (snd b) ->
  key_ltb a b = true -> key_le a b.
Proof.
  intros N1 N1' N2 N2' H. apply (key_ltb_iff a b N1 N1' N2 N2') in H.
  ranks. lia.
Qed.

Lemma by_key_kle (a b : detection) :
  numeric_keys a -> numeric_keys b -> (by_key a b <-> kle a b).
Proof.
  intros [Na Na'] [Nb Nb']. unfold by_key, kle, sort_key.
  rewrite ltb_rank, eqb_rank, leb_rank. ranks. tauto.
Qed.

Lemma sorted_by_key_kle (l : list detection) :
  Forall numeric_keys l ->
  (StronglySorted by_key l <-> StronglySorted kle l).
Proof.
  induction 1 as [| x l Hx Hl IH].
  - split; constructor.
  - split; intro H; inversion H as [| ? ? Hs Hall]; subst;
      (constructor; [apply IH; exact Hs |]);
      rewrite Forall_forall in *; intros z Hz;
      apply (by_key_kle x z Hx (Hl z Hz)); apply Hall; exact Hz.
Qed.

(* ------------------------------------------------------------------ *)
(** ** The sort *)

Lemma insert_sorted_perm (x : detection) (acc : list detection) :
  Permutation (insert_sorted x acc) (acc ++ [x]).
Proof.
  induction acc as [| y rest IH]; simpl.
  - apply Permutation_refl.
  - destruct (key_ltb (sort_key x) (sort_key y)).
    + change (y :: rest ++ [x]) with ((y :: rest) ++ [x]).
      apply Permutation_cons_append.
    + apply perm_skip. exact IH.
Qed.

Lemma sorted_from_perm (results acc : list detection) :
  Permutation (sorted_from acc results) (acc ++ results).
Proof.
  revert acc. induction results as [| x rest IH]; intro acc; simpl.
  - rewrite app_nil_r. apply Permutation_refl.
  - unfold sorted_from in *. simpl.
    eapply Permutation_trans; [apply IH |].
    replace (acc ++ x :: rest) with ((acc ++ [x]) ++ rest)
      by (rewrite <- app_assoc; reflexivity).
    apply Permutation_app_tail. apply insert_sorted_perm.
Qed.

Lemma sorted_results_perm (results : list detection) :
  Permutation results (sorted_results results).
Proof.
  apply Permutation_sym. exact (sorted_from_perm results []).
Qed.

Lemma sorted_results_numeric (results : list detection) :
  Forall numeric_keys results -> Forall numeric_keys (sorted_results results).
Proof.
  intro H. eapply Permutation_Forall; [apply sorted_results_perm | exact H].
Qed.

Lemma insert_sorted_numeric (x : detection) (acc : list detection) :
  numeric_keys x -> Forall numeric_keys acc ->
  Forall numeric_keys (insert_sorted x acc).
Proof.
  intros Hx Hacc.
  eapply Permutation_Forall;
    [apply Permutation_sym, insert_sorted_perm |].
  apply Forall_app. split; [exact Hacc | constructor; [exact Hx | constructor]].
Qed.

Lemma insert_sorted_sorted (x : detection) (acc : list detection) :
  numeric_keys x -> Forall numeric_keys acc ->
  StronglySorted kle acc -> StronglySorted kle (insert_sorted x acc).
Proof.
  intros [Nx Nx'] Hn. induction acc as [| y rest IH]; simpl; intro Hs.
  - constructor; constructor.
  - inversion Hs as [| ? ? Hrest Hall]; subst.
    inversion Hn as [| ? ? [Ny Ny'] Hn']; subst.
    destruct (key_ltb (sort_key x) (sort_key y)) eqn:E.
    + assert (Hxy : kle x y)
        by (apply key_lt_le; assumption).
      constructor; [exact Hs |].
      constructor; [exact Hxy |].
      eapply Forall_impl; [| exact Hall].
      intros z Hz. unfold kle in *.
      eapply key_le_trans; [exact Hxy | exact Hz].
    + constructor; [apply IH; assumption |].
      apply key_ltb_false_iff in E; try assumption.
      eapply Permutation_Forall.
      * apply Permutation_sym. apply insert_sorted_perm.
      * apply Forall_app. split; [exact Hall |].
        constructor; [exact E | constructor].
Qed.

Lemma sorted_from_sorted (results acc : list detection) :
  Forall numeric_keys results -> Forall numeric_keys acc ->
  StronglySorted kle acc -> StronglySorted kle (sorted_from acc results).
Proof.
  revert acc. induction results as [| x rest IH]; intros acc Hr Ha Hs; simpl.
  - exact Hs.
  - inversion Hr as [| ? ? Hx Hrest]; subst.
    apply IH; [exact Hrest | apply insert_sorted_numeric; assumption |].
    apply insert_sorted_sorted; assumption.
Qed.

Lemma sorted_results_sorted (results : list detection) :
  Forall numeric_keys results -> StronglySorted kle (sorted_results results).
Proof.
  intro H. apply sorted_from_sorted; [exact H | constructor | constructor].
Qed.

Lemma has_key_true (k : F64.float * F64.float) (r : detection) :
  has_key k r = true <->
  numeric_keys r /\ number (fst k) /\ number (snd k) /\
  F64.rank_eq (get_y_center (d_bbox r)) (fst k) /\
  F64.rank_eq (get_x_min (d_bbox r)) (snd k).
Proof.
  unfold has_key, numeric_keys, sort_key. cbn [fst snd].
  rewrite andb_true_iff, !eqb_rank. tauto.
Qed.

Lemma has_key_refl (x : detection) :
  numeric_keys x -> has_key (sort_key x) x = true.
Proof.
  intros [N N']. apply has_key_true. unfold sort_key. cbn [fst snd].
  repeat split; try assumption; reflexivity.
Qed.

(** Stable insertion: the new item goes behind every item of its key. *)
Lemma insert_sorted_filter
    (k : F64.float * F64.float) (x : detection) (acc : list detection) :
  numeric_keys x -> Forall numeric_keys acc ->
  StronglySorted kle acc ->
  filter (has_key k) (insert_sorted x acc) =
  filter (has_key k) acc ++ filter (has_key k) [x].
Proof.
  intros Nx Hn. induction acc as [| y rest IH]; intro Hs.
  - reflexivity.
  - inversion Hs as [| ? ? Hrest Hall]; subst.
    inversion Hn as [| ? ? Ny Hn']; subst.
    cbn [insert_sorted].
    destruct (key_ltb (sort_key x) (sort_key y)) eqn:E.
    + change (x :: y :: rest) with ([x] ++ y :: rest). rewrite filter_app.
      destruct (has_key k x) eqn:Kx.
      * assert (Hnone : filter (has_key k) (y :: rest) = []).
        { apply has_key_true in Kx.
          assert (Hall' : Forall (kle y) (y :: rest)).
          { constructor; [apply key_le_refl | exact Hall]. }
          destruct Nx as [Nx Nx'], Ny as [Ny Ny'].
          apply (key_ltb_iff (sort_key x) (sort_key y) Nx Nx' Ny Ny') in E.
          clear - Hall' E Kx.
          induction Hall' as [| z l Hz _ IHl]; [reflexivity |].
          cbn [filter]. destruct (has_key k z) eqn:Kz; [| exact IHl].
          exfalso. apply has_key_true in Kz.
          unfold kle, sort_key in *. ranks.
          destruct Kx as (_ & _ & _ & Kx1 & Kx2).
          destruct Kz as (_ & _ & _ & Kz1 & Kz2). lia. }
        rewrite Hnone. rewrite app_nil_r. reflexivity.
      * cbn [filter]. rewrite Kx. rewrite app_nil_r. reflexivity.
    + cbn [filter]. rewrite (IH Hn' Hrest).
      destruct (has_key k y); reflexivity.
Qed.

Lemma sorted_from_filter
    (k : F64.float * F64.float) (results acc : list detection) :
  Forall numeric_keys results -> Forall numeric_keys acc ->
  StronglySorted kle acc ->
  filter (has_key k) (sorted_from acc results) =
  filter (has_key k) acc ++ filter (has_key k) results.
Proof.
  revert acc. induction results as [| x rest IH]; intros acc Hr Ha Hs.
  - simpl. rewrite app_nil_r. reflexivity.
  - inversion Hr as [| ? ? Hx Hrest]; subst.
    unfold sorted_from in *. cbn [fold_left].
    rewrite (IH _ Hrest (insert_sorted_numeric x acc Hx Ha)
               (insert_sorted_sorted x acc Hx Ha Hs)).
    rewrite (insert_sorted_filter k x acc Hx Ha Hs).
    rewrite <- app_assoc, <- filter_app. reflexivity.
Qed.

Lemma sorted_results_filter
    (k : F64.float * F64.float) (results : list detection) :
  Forall numeric_keys results ->
  filter (has_key k) (sorted_results results) = filter (has_key k) results.
Proof.
  intro H.
  exact (sorted_from_filter k results [] H (Forall_nil _) (SSorted_nil _)).
Qed.

Lemma kle_antisym (x z : detection) :
  numeric_keys x -> numeric_keys z ->
  kle x z -> kle z x -> has_key (sort_key x) z = true.
Proof.
  intros Nx Nz H1 H2. apply has_key_true.
  destruct Nx as [Nx Nx']. unfold kle, sort_key in *. ranks.
  repeat split; try assumption; try apply Nz; lia.
Qed.

(** The result of the sort does not depend on how the sort is done: a
    sequence in key order that keeps, for every key, the detections of
    that key in their input order is [sorted_results]. *)
Lemma stable_sorted_unique (l1 : list detection) :
  forall l2,
    Forall numeric_keys l1 -> Forall numeric_keys l2 ->
    StronglySorted kle l1 -> StronglySorted kle l2 ->
    (forall k, filter (has_key k) l1 = filter (has_key k) l2) ->
    l1 = l2.
Proof.
  induction l1 as [| x l1 IH]; intros l2 Hn1 Hn2 Hs1 Hs2 Hf.
  - destruct l2 as [| z l2]; [reflexivity |].
    inversion Hn2 as [| ? ? Nz _]; subst.
    specialize (Hf (sort_key z)). cbn [filter] in Hf.
    rewrite (has_key_refl z Nz) in Hf. discriminate Hf.
  - inversion Hn1 as [| ? ? Nx Hn1']; subst.
    destruct l2 as [| z l2].
    + specialize (Hf (sort_key x)). cbn [filter] in Hf.
      rewrite (has_key_refl x Nx) in Hf. discriminate Hf.
    + inversion Hn2 as [| ? ? Nz Hn2']; subst.
      inversion Hs1 as [| ? ? Hs1' Hall1]; subst.
      inversion Hs2 as [| ? ? Hs2' Hall2]; subst.
      assert (Hxz : x = z).
      { pose proof (Hf (sort_key x)) as Hx. cbn [filter] in Hx.
        rewrite (has_key_refl x Nx) in Hx.
        destruct (has_key (sort_key x) z) eqn:Kz; [congruence |].
        pose proof (Hf (sort_key z)) as Hz. cbn [filter] in Hz.
        rewrite (has_key_refl z Nz) in Hz.
        assert (Kx : has_key (sort_key z) x = false).
        { apply not_true_iff_false. intro K. apply has_key_true in K.
          apply not_true_iff_false in Kz. apply Kz. apply has_key_true.
          unfold sort_key in *. ranks.
          destruct K as (_ & K1 & K2 & K3 & K4).
          destruct Nx as [Nx Nx']. repeat split; try assumption; lia. }
        rewrite Kx in Hz.
        assert (Hin1 : In x l2).
        { apply (proj1 (filter_In (has_key (sort_key x)) x l2)).
          rewrite <- Hx. left. reflexivity. }
        assert (Hin2 : In z l1).
        { apply (proj1 (filter_In (has_key (sort_key z)) z l1)).
          rewrite Hz. left. reflexivity. }
        rewrite Forall_forall in Hall1, Hall2.
        rewrite (kle_antisym x z Nx Nz (Hall1 z Hin2) (Hall2 x Hin1)) in Kz.
        discriminate Kz. }
      subst z. f_equal. apply IH; try assumption.
      intro k. specialize (Hf k). cbn [filter] in Hf.
      destruct (has_key k x); congruence.
Qed.

Lemma sorted_results_unique (results sorted : list detection) :
  Forall numeric_keys results -> Forall numeric_keys sorted ->
  StronglySorted kle sorted ->
  (forall k, filter (has_key k) sorted = filter (has_key k) results) ->
  sorted = sorted_results results.
Proof.
  intros Hr Hn Hs Hf. apply stable_sorted_unique.
  - exact Hn.
  - apply sorted_results_numeric. exact Hr.
  - exact Hs.
  - apply sorted_results_sorted. exact Hr.
  - intro k. rewrite Hf. symmetry. apply sorted_results_filter. exact Hr.
Qed.

(* ------------------------------------------------------------------ *)
(** ** The grouping loop *)

Lemma walk_chunks (l : list detection) :
  forall (G : list (list detection)) (cur : list detection) (ly : F64.float),
    cur <> [] ->
    add_last_line (walk (WalkState G cur (Some ly)) l) = G ++ chunks cur ly l.
Proof.
  induction l as [| r rest IH]; intros G cur ly Hcur.
  - destruct cur as [| c cs]; [contradiction | reflexivity].
  - unfold walk in *. cbn [fold_left chunks].
    unfold walk_step at 2. cbn [last_y current_line line_groups].
    destruct (new_line_detected (get_y_center (d_bbox r)) ly) eqn:E.
    + destruct cur as [| c cs]; [contradiction |].
      cbn [line_groups current_line app].
      rewrite IH by discriminate.
      rewrite <- app_assoc. reflexivity.
    + rewrite IH; [reflexivity |].
      destruct cur; discriminate.
Qed.

Lemma group_lines_nil : group_lines [] = [].
Proof. reflexivity. Qed.

Lemma group_lines_cons (r : detection) (l : list detection) :
  group_lines (r :: l) = chunks [r] (get_y_center (d_bbox r)) l.
Proof.
  unfold group_lines, walk. cbn [fold_left].
  change (walk_step walk_init r)
    with (WalkState [] [r] (Some (get_y_center (d_bbox r)))).
  exact (walk_chunks l [] [r] _ ltac:(discriminate)).
Qed.

Lemma chunks_concat (l : list detection) :
  forall cur ly, List.concat (chunks cur ly l) = cur ++ l.
Proof.
  induction l as [| r rest IH]; intros cur ly; cbn [chunks].
  - simpl. reflexivity.
  - destruct (new_line_detected _ ly).
    + cbn [List.concat]. rewrite IH. reflexivity.
    + rewrite IH, <- app_assoc. reflexivity.
Qed.

Lemma chunks_nonempty (l : list detection) :
  forall cur ly, cur <> [] -> Forall (fun g => g <> []) (chunks cur ly l).
Proof.
  induction l as [| r rest IH]; intros cur ly Hcur; cbn [chunks].
  - constructor; [exact Hcur | constructor].
  - destruct (new_line_detected _ ly).
    + constructor; [exact Hcur | apply IH; discriminate].
    + apply IH. destruct cur; discriminate.
Qed.

Lemma group_lines_concat (l : list detection) : List.concat (group_lines l) = l.
Proof.
  destruct l as [| r l]; [reflexivity |].
  rewrite group_lines_cons, chunks_concat. reflexivity.
Qed.

Lemma group_lines_nonempty (l : list detection) :
  Forall (fun g => g <> []) (group_lines l).
Proof.
  destruct l as [| r l]; [constructor |].
  rewrite group_lines_cons. apply chunks_nonempty. discriminate.
Qed.

Lemma chunks_index_prefix (l : list detection) :
  forall cur ly i,
    (i < List.length cur)%nat -> group_index (chunks cur ly l) i = Some 0%nat.
Proof.
  induction l as [| r rest IH]; intros cur ly i Hi; cbn [chunks].
  - cbn [group_index]. apply Nat.ltb_lt in Hi. rewrite Hi. reflexivity.
  - destruct (new_line_detected _ ly).
    + cbn [group_index]. apply Nat.ltb_lt in Hi. rewrite Hi. reflexivity.
    + apply IH. rewrite length_app. simpl. lia.
Qed.

Lemma chunks_index_step (d : detection) (l : list detection) :
  forall cur ly i,
    cur <> [] ->
    ly = get_y_center (d_bbox (last cur d)) ->
    (List.length cur <= S i)%nat ->
    (S i < List.length cur + List.length l)%nat ->
    exists g,
      group_index (chunks cur ly l) i = Some g /\
      group_index (chunks cur ly l) (S i) =
        Some (if new_line_detected
                   (get_y_center (d_bbox (nth (S i) (cur ++ l) d)))
                   (get_y_center (d_bbox (nth i (cur ++ l) d)))
              then S g else g).
Proof.
  induction l as [| r rest IH]; intros cur ly i Hcur Hly Hlo Hhi.
  - simpl in Hhi. lia.
  - cbn [chunks]. cbn [List.length] in Hhi.
    destruct (Nat.eq_dec (S i) (List.length cur)) as [Heq | Hne].
    + (* the pair is (last of cur, r) *)
      assert (Hn1 : nth (S i) (cur ++ r :: rest) d = r).
      { rewrite Heq, nth_middle. reflexivity. }
      assert (Hn0 : nth i (cur ++ r :: rest) d = last cur d).
      { rewrite app_nth1 by lia.
        destruct (exists_last Hcur) as [cs [c ->]].
        rewrite length_app in Heq. simpl in Heq.
        rewrite last_last.
        replace i with (List.length cs) by lia.
        apply nth_middle. }
      rewrite Hn1, Hn0, <- Hly.
      destruct (new_line_detected (get_y_center (d_bbox r)) ly).
      * exists 0%nat. cbn [group_index].
        replace (i <? List.length cur)%nat with true
          by (symmetry; apply Nat.ltb_lt; lia).
        replace (S i <? List.length cur)%nat with false
          by (symmetry; apply Nat.ltb_ge; lia).
        split; [reflexivity |].
        rewrite chunks_index_prefix by (rewrite Heq; simpl; lia).
        reflexivity.
      * exists 0%nat.
        rewrite !chunks_index_prefix by (rewrite length_app; simpl; lia).
        split; reflexivity.
    + (* the pair lies in the detections still to come *)
      destruct (new_line_detected (get_y_center (d_bbox r)) ly).
      * destruct (IH [r] (get_y_center (d_bbox r)) (i - List.length cur)%nat)
          as [g [Hg0 Hg1]];
          [discriminate | reflexivity | simpl; lia | simpl; lia |].
        exists (S g). cbn [group_index].
        replace (i <? List.length cur)%nat with false
          by (symmetry; apply Nat.ltb_ge; lia).
        replace (S i <? List.length cur)%nat with false
          by (symmetry; apply Nat.ltb_ge; lia).
        replace (S i - List.length cur)%nat with (S (i - List.length cur))
          by lia.
        rewrite Hg0, Hg1. cbn [option_map].
        split; [reflexivity |].
        rewrite (app_nth2 cur (r :: rest) d (n := S i)) by lia.
        rewrite (app_nth2 cur (r :: rest) d (n := i)) by lia.
        replace (S i - List.length cur)%nat with (S (i - List.length cur))
          by lia.
        change ([r] ++ rest) with (r :: rest).
        destruct (new_line_detected _ _); reflexivity.
      * destruct (IH (cur ++ [r]) (get_y_center (d_bbox r)) i) as [g [Hg0 Hg1]].
        -- destruct cur; discriminate.
        -- rewrite last_last. reflexivity.
        -- rewrite length_app. simpl. lia.
        -- rewrite length_app. simpl. lia.
        -- exists g. rewrite <- app_assoc in Hg1. simpl in Hg1.
           split; assumption.
Qed.

Lemma group_lines_index_step (d : detection) (l : list detection) (i : nat) :
  (S i < List.length l)%nat ->
  exists g,
    group_index (group_lines l) i = Some g /\
    group_index (group_lines l) (S i) =
      Some (if new_line_detected
                 (get_y_center (d_bbox (nth (S i) l d)))
                 (get_y_center (d_bbox (nth i l d)))
            then S g else g).
Proof.
  intro Hi. destruct l as [| r l]; [simpl in Hi; lia |].
  rewrite group_lines_cons.
  apply (chunks_index_step d l [r] _ i).
  - discriminate.
  - reflexivity.
  - simpl. lia.
  - simpl in *. lia.
Qed.

(* ------------------------------------------------------------------ *)
(** ** The test of the loop *)

Lemma y_tolerance_number : number y_tolerance.
Proof. reflexivity. Qed.

(** For a difference that is a number, "not greater than the tolerance"
    is "at most the tolerance". *)
Lemma new_line_detected_false_leb (cy ly : F64.float) :
  number (F64.abs (F64.sub cy ly)) ->
  (new_line_detected cy ly = false <->
   F64.leb (F64.abs (F64.sub cy ly)) y_tolerance = true).
Proof.
  intro N. unfold new_line_detected.
  rewrite (ltb_false_rank _ _ y_tolerance_number N), leb_rank.
  pose proof y_tolerance_number. tauto.
Qed.

(** The difference of two equal numbers is zero, or no number at all
    (for two infinities). *)
Lemma sub_equal (a b : F64.float) :
  F64.eqb a b = true ->
  F64.abs (F64.sub a b) = S754_zero false \/ F64.abs (F64.sub a b) = S754_nan.
Proof.
  destruct a as [[|]|[|]| |sa ma ea]; destruct b as [[|]|[|]| |sb mb eb];
    try (intro H; discriminate H);
    try (intros _; left; reflexivity);
    try (intros _; right; reflexivity);
    try (destruct sa; intro H; discriminate H);
    try (destruct sb; intro H; discriminate H).
  intro H. left.
  assert (E : sa = sb /\ ea = eb /\ ma = mb).
  { revert H. unfold F64.eqb, SFeqb, SFcompare.
    change (Pos.compare_cont Eq ma mb) with (Pos.compare ma mb).
    destruct sa, sb; try discriminate;
      destruct (Z.compare_spec ea eb); try discriminate;
      destruct (Pos.compare_spec ma mb); try discriminate;
      intros _; repeat split; assumption. }
  destruct E as (-> & -> & ->).
  unfold F64.sub, SFsub. rewrite Z.min_id.
  unfold shl_align. rewrite Z.sub_diag. cbn [fst].
  reflexivity.
Qed.

Lemma same_height_no_new_line (cy ly : F64.float) :
  F64.eqb cy ly = true -> new_line_detected cy ly = false.
Proof.
  intro H. unfold new_line_detected.
  destruct (sub_equal cy ly H) as [-> | ->]; reflexivity.
Qed.

(* ------------------------------------------------------------------ *)
(** ** The keys *)

Lemma py_min_from_least (rest : list F64.float) :
  forall x0,
    F64.ltb x0 (py_min_from x0 rest) = false /\
    Forall (fun v => F64.ltb v (py_min_from x0 rest) = false) rest.
Proof.
  unfold py_min_from.
  assert (Hgen : forall (rest seen : list F64.float) m,
             Forall (fun v => F64.ltb v m = false) seen ->
             Forall (fun v =>
                       F64.ltb v (fold_left
                                    (fun m v => if F64.ltb v m then v else m)
                                    rest m) = false) (seen ++ rest)).
  { clear. induction rest as [| v rest IH]; intros seen m Hseen;
      cbn [fold_left].
    - rewrite app_nil_r. exact Hseen.
    - replace (seen ++ v :: rest) with ((seen ++ [v]) ++ rest)
        by (rewrite <- app_assoc; reflexivity).
      apply IH. apply Forall_app. split.
      + destruct (F64.ltb v m) eqn:E; [| exact Hseen].
        eapply Forall_impl; [| exact Hseen].
        intros w Hw. cbv beta in Hw.
        destruct (F64.ltb w v) eqn:Ew; [| reflexivity].
        rewrite (ltb_trans w v m Ew E) in Hw. discriminate Hw.
      + constructor; [| constructor].
        destruct (F64.ltb v m) eqn:E; [apply ltb_irrefl | exact E]. }
  intro x0.
  assert (H0 : Forall (fun v => F64.ltb v x0 = false) [x0])
    by (constructor; [apply ltb_irrefl | constructor]).
  specialize (Hgen rest [x0] x0 H0). cbn [app] in Hgen.
  inversion Hgen as [| ? ? Hx Hrest]; subst. split; assumption.
Qed.

Lemma py_min_from_in (rest : list F64.float) :
  forall x0, In (py_min_from x0 rest) (x0 :: rest).
Proof.
  unfold py_min_from.
  induction rest as [| v rest IH]; intro x0; cbn [fold_left].
  - left. reflexivity.
  - destruct (IH (if F64.ltb v x0 then v else x0)) as [H | H].
    + destruct (F64.ltb v x0); [right; left; exact H | left; exact H].
    + right. right. exact H.
Qed.

(** No x-coordinate of the quad is less than [get_x_min], and one of
    them is [get_x_min]. *)
Lemma get_x_min_least (b : bbox) :
  Forall (fun p => F64.ltb (fst p) (get_x_min b) = false) (points b) /\
  Exists (fun p => get_x_min b = fst p) (points b).
Proof.
  unfold get_x_min, points. cbn [List.map]. split.
  - destruct (py_min_from_least
                [fst (p2 b); fst (p3 b); fst (p4 b)] (fst (p1 b)))
      as [H0 Hall].
    inversion Hall as [| ? ? H2 Hall2]; subst.
    inversion Hall2 as [| ? ? H3 Hall3]; subst.
    inversion Hall3 as [| ? ? H4 _]; subst.
    repeat constructor; assumption.
  - destruct (py_min_from_in [fst (p2 b); fst (p3 b); fst (p4 b)] (fst (p1 b)))
      as [H | [H | [H | [H | []]]]].
    + apply Exists_cons_hd. symmetry. exact H.
    + apply Exists_cons_tl, Exists_cons_hd. symmetry. exact H.
    + apply Exists_cons_tl, Exists_cons_tl, Exists_cons_hd. symmetry. exact H.
    + apply Exists_cons_tl, Exists_cons_tl, Exists_cons_tl, Exists_cons_hd.
      symmetry. exact H.
Qed.

(** The vertical centre, written out: the four y-coordinates added to 0
    from the first point on, each sum rounded, and the last sum divided
    by 4 and rounded. *)
Lemma get_y_center_written_out (b : bbox) :
  get_y_center b =
  F64.div
    (F64.add (F64.add (F64.add (F64.add (F64.of_int 0) (snd (p1 b)))
                               (snd (p2 b)))
                      (snd (p3 b)))
             (snd (p4 b)))
    (F64.of_int 4).
Proof. reflexivity. Qed.

(* ------------------------------------------------------------------ *)
(** ** Positions in a sorted sequence *)

Lemma sorted_nth (l : list detection) :
  StronglySorted kle l ->
  forall i j d,
    (i < j)%nat -> (j < List.length l)%nat ->
    kle (nth i l d) (nth j l d).
Proof.
  induction 1 as [| x l Hs IH Hall]; intros i j d Hij Hj.
  - simpl in Hj. lia.
  - destruct j as [| j]; [lia |]. simpl in Hj.
    destruct i as [| i]; cbn [nth].
    + rewrite Forall_forall in Hall. apply Hall. apply nth_In. lia.
    + apply IH; lia.
Qed.

Lemma nth_numeric (l : list detection) (i : nat) (d : detection) :
  Forall numeric_keys l -> (i < List.length l)%nat -> numeric_keys (nth i l d).
Proof.
  intros H Hi. rewrite Forall_forall in H. apply H. apply nth_In. exact Hi.
Qed.

(** In a sorted sequence, detections with the same vertical centre are
    in one group. *)
Lemma same_y_same_group (d : detection) (l : list detection) (i : nat) :
  Forall numeric_keys l ->
  StronglySorted kle l ->
  forall j,
    (i <= j)%nat -> (j < List.length l)%nat ->
    F64.eqb (get_y_center (d_bbox (nth i l d)))
            (get_y_center (d_bbox (nth j l d))) = true ->
    group_index (group_lines l) i = group_index (group_lines l) j.
Proof.
  intros Hn Hs. induction j as [| m IH]; intros Hij Hj Hy.
  - replace i with 0%nat by lia. reflexivity.
  - destruct (Nat.eq_dec i (S m)) as [-> | Hne]; [reflexivity |].
    pose proof (nth_numeric l i d Hn ltac:(lia)) as [Ni _].
    pose proof (nth_numeric l m d Hn ltac:(lia)) as [Nm _].
    pose proof (nth_numeric l (S m) d Hn Hj) as [NS _].
    assert (Hm : kle (nth m l d) (nth (S m) l d))
      by (apply sorted_nth; [exact Hs | lia | exact Hj]).
    assert (Him : i = m \/ kle (nth i l d) (nth m l d)).
    { destruct (Nat.eq_dec i m) as [-> | Hne'']; [left; reflexivity |].
      right. apply sorted_nth; [exact Hs | lia | lia]. }
    apply eqb_rank in Hy. destruct Hy as (_ & _ & Hy).
    assert (Eim : F64.eqb (get_y_center (d_bbox (nth i l d)))
                          (get_y_center (d_bbox (nth m l d))) = true).
    { apply eqb_rank. repeat split; try assumption;
        destruct Him as [-> | Him]; try reflexivity;
        unfold kle, sort_key in *; ranks; lia. }
    assert (ESm : F64.eqb (get_y_center (d_bbox (nth (S m) l d)))
                          (get_y_center (d_bbox (nth m l d))) = true).
    { apply eqb_rank in Eim. destruct Eim as (_ & _ & Eim).
      apply eqb_rank. repeat split; try assumption;
        unfold kle, sort_key in *; ranks; lia. }
    rewrite IH by (try lia; exact Eim).
    destruct (group_lines_index_step d l m Hj) as [g [H0 H1]].
    rewrite H0, H1.
    rewrite (same_height_no_new_line _ _ ESm). reflexivity.
Qed.

Example two_line_split :
  extracted_text [goodbye one; hello one] =
  lit "Hello" ++ newline ++ lit "Goodbye".
Proof. vm_compute. reflexivity. Qed.

Example single_line_merge :
  extracted_text [world one; hello one] = lit "Hello World".
Proof. vm_compute. reflexivity. Qed.

(** Drift: each detection is within the tolerance of the one before it,
    so the three are one line, although the first and the last are 16
    apart. *)
Example drift_keeps_one_line :
  line_groups_of [word_at 16 "c"; word_at 0 "a"; word_at 8 "b"] =
    [[word_at 0 "a"; word_at 8 "b"; word_at 16 "c"]] /\
  extracted_text [word_at 16 "c"; word_at 0 "a"; word_at 8 "b"] = lit "a b c" /\
  extracted_text [word_at 16 "c"; word_at 0 "a"] = lit "a" ++ newline ++ lit "c".
Proof. repeat split; vm_compute; reflexivity. Qed.

Example blank_pair :
  extracted_text [blank one; blank one] = lit " ".
Proof. vm_compute. reflexivity. Qed.

(** Rounding: the same four y-coordinates give 0.25 in one order of the
    points and the float below 0.25 in the other. *)
Example centre_depends_on_point_order :
  get_y_center (d_bbox (rising 0 "a")) = F64.dec 1 4 /\
  F64.ltb (get_y_center (d_bbox (falling 0 "b")))
          (get_y_center (d_bbox (rising 0 "a"))) = true.
Proof. split; vm_compute; reflexivity. Qed.

(* ------------------------------------------------------------------ *)
(** ** Sorting and grouping: the claims *)

(** C1, as amended.  In the walk over the (sorted) detections, the
    detection at position [i + 1] stays in the group of the detection at
    position [i] exactly when the program's test
    [abs(current_y - last_y) > y_tolerance], made in binary64 on the
    centre of the immediate predecessor with [y_tolerance] = 10.0, is
    false, and opens the next group otherwise.  When the rounded
    difference is a number, that is: the two are in the same Line Group
    if and only if the binary64 value of |yCenter(i+1) - yCenter(i)| is
    at most 10.0.  The walk behaves so on every sequence, the sorted one
    in particular. *)
Theorem same_group_iff_within_tolerance
    (d : detection) (l : list detection) (i : nat) :
  (S i < List.length l)%nat ->
  y_tolerance = F64.of_int 10 /\
  (exists g,
     group_index (group_lines l) i = Some g /\
     group_index (group_lines l) (S i) =
       Some (if new_line_detected
                  (get_y_center (d_bbox (nth (S i) l d)))
                  (get_y_center (d_bbox (nth i l d)))
             then S g else g)) /\
  (group_index (group_lines l) i = group_index (group_lines l) (S i) <->
   new_line_detected (get_y_center (d_bbox (nth (S i) l d)))
                     (get_y_center (d_bbox (nth i l d))) = false) /\
  (number (F64.abs (F64.sub (get_y_center (d_bbox (nth (S i) l d)))
                            (get_y_center (d_bbox (nth i l d))))) ->
   (group_index (group_lines l) i = group_index (group_lines l) (S i) <->
    F64.leb (F64.abs (F64.sub (get_y_center (d_bbox (nth (S i) l d)))
                              (get_y_center (d_bbox (nth i l d)))))
            y_tolerance = true)).
Proof.
  intro Hi. split; [reflexivity |].
  destruct (group_lines_index_step d l i Hi) as [g [H0 H1]].
  split; [exists g; split; assumption |].
  assert (Hiff : group_index (group_lines l) i =
                 group_index (group_lines l) (S i) <->
                 new_line_detected (get_y_center (d_bbox (nth (S i) l d)))
                                   (get_y_center (d_bbox (nth i l d))) = false).
  { rewrite H0, H1.
    destruct (new_line_detected _ _); split; intro H.
    - injection H as H. lia.
    - discriminate.
    - reflexivity.
    - reflexivity. }
  split; [exact Hiff |].
  intro N. rewrite Hiff. apply new_line_detected_false_leb. exact N.
Qed.

(** On "Hello", "World", "Goodbye" (vertical centres 2.5, 3.5, 52.5), for
    the first two. *)
Lemma same_group_iff_within_tolerance_witness :
  (S 0 < List.length [hello one; world one; goodbye one])%nat /\
  (group_index (group_lines [hello one; world one; goodbye one]) 0 =
   group_index (group_lines [hello one; world one; goodbye one]) 1 <->
   new_line_detected
     (get_y_center (d_bbox (nth 1 [hello one; world one; goodbye one] (hello one))))
     (get_y_center (d_bbox (nth 0 [hello one; world one; goodbye one] (hello one))))
   = false).
Proof.
  split; [simpl; lia |].
  apply (same_group_iff_within_tolerance (hello one)
           [hello one; world one; goodbye one] 0).
  simpl. lia.
Defined.

(** C1 as stated fails: two flat detections on the heights 0.3 and 10.3
    are sorted as they stand and have these centres; the centres are
    more than 10 apart, but the program's difference 10.3 - 0.3 is
    rounded to 10.0, which is not greater than the tolerance, and the
    two are one Line Group. *)
Lemma gap_over_tolerance_in_one_group :
  sorted_results [low_03; high_103] = [low_03; high_103] /\
  get_y_center (d_bbox low_03) = F64.dec 3 10 /\
  get_y_center (d_bbox high_103) = F64.dec 103 10 /\
  ~ Qabs (F64.value (get_y_center (d_bbox high_103)) -
          F64.value (get_y_center (d_bbox low_03))) <= 10 /\
  F64.sub (get_y_center (d_bbox high_103)) (get_y_center (d_bbox low_03)) =
    F64.of_int 10 /\
  group_index (group_lines [low_03; high_103]) 0 =
    group_index (group_lines [low_03; high_103]) 1 /\
  extracted_text [low_03; high_103] = lit "a b".
Proof.
  split; [vm_compute; reflexivity |].
  split; [vm_compute; reflexivity |].
  split; [vm_compute; reflexivity |].
  split.
  { intro H. apply Qle_bool_iff in H. vm_compute in H. discriminate H. }
  split; [vm_compute; reflexivity |].
  split; vm_compute; reflexivity.
Qed.

(** C2, as amended.  The detections are sorted by the key pair
    (yCenter, xMin) as the program computes it: yCenter is the binary64
    value of sum(y)/len(y), the four y-coordinates added from the first
    point on with every sum and the quotient rounded, and xMin is the
    least of the x-coordinates.  [sorted_results] is a rearrangement of
    the input, and when no key is a NaN every detection in it is
    followed only by detections with a larger computed yCenter, or with
    an equal one and an xMin that is not smaller. *)
Theorem sorted_by_y_center_then_x_min (results : list detection) :
  Permutation results (sorted_results results) /\
  (Forall numeric_keys results ->
   StronglySorted by_key (sorted_results results)) /\
  (forall b,
      get_y_center b =
        F64.div
          (F64.add (F64.add (F64.add (F64.add (F64.of_int 0) (snd (p1 b)))
                                     (snd (p2 b)))
                            (snd (p3 b)))
                   (snd (p4 b)))
          (F64.of_int 4) /\
      Forall (fun p => F64.ltb (fst p) (get_x_min b) = false) (points b) /\
      Exists (fun p => get_x_min b = fst p) (points b)).
Proof.
  split; [apply sorted_results_perm |].
  split.
  - intro H. apply sorted_by_key_kle.
    + apply sorted_results_numeric. exact H.
    + apply sorted_results_sorted. exact H.
  - intro b. split; [apply get_y_center_written_out | apply get_x_min_least].
Qed.

Lemma sorted_by_y_center_then_x_min_witness :
  StronglySorted by_key (sorted_results [goodbye one; world one; hello one]).
Proof.
  apply (proj1 (proj2 (sorted_by_y_center_then_x_min
                         [goodbye one; world one; hello one]))).
  repeat (constructor; [split; reflexivity |]). constructor.
Defined.

(** C2 as stated fails: the quads "a" (corners at 0.1, 0.2, 0.3, 0.4,
    left edge 0) and "b" (corners at 0.4, 0.3, 0.2, 0.1, left edge 20)
    have the same four y-coordinates and so the same arithmetic mean,
    and "a" has the smaller xMin; the program's centre of "b" is not
    that mean but the float below it, and the sort puts "b" first. *)
Lemma equal_means_sorted_by_rounded_centres :
  exact_mean (d_bbox (rising 0 "a")) == exact_mean (d_bbox (falling 20 "b")) /\
  F64.value (get_x_min (d_bbox (rising 0 "a")))
    < F64.value (get_x_min (d_bbox (falling 20 "b"))) /\
  ~ F64.value (get_y_center (d_bbox (falling 20 "b")))
      == exact_mean (d_bbox (falling 20 "b")) /\
  sorted_results [rising 0 "a"; falling 20 "b"] =
    [falling 20 "b"; rising 0 "a"].
Proof.
  split; [vm_compute; reflexivity |].
  split; [vm_compute; reflexivity |].
  split.
  { intro H. apply Qeq_bool_iff in H. vm_compute in H. discriminate H. }
  vm_compute. reflexivity.
Qed.

(** C3.  Every input detection is in exactly one Line Group: the groups,
    laid end to end, are a rearrangement of the input, no group is
    empty, and the sizes of the groups add up to the number of input
    detections.  The empty input gives no group at all. *)
Theorem every_detection_in_one_group (results : list detection) :
  Permutation results (List.concat (line_groups_of results)) /\
  Forall (fun g => g <> []) (line_groups_of results) /\
  list_sum (List.map (@List.length detection) (line_groups_of results)) =
    List.length results /\
  line_groups_of [] = [].
Proof.
  unfold line_groups_of.
  assert (Hp : Permutation results
                 (List.concat (group_lines (sorted_results results)))).
  { rewrite group_lines_concat. apply sorted_results_perm. }
  split; [exact Hp |].
  split; [apply group_lines_nonempty |].
  split; [| reflexivity].
  rewrite (Permutation_length Hp), length_concat. reflexivity.
Qed.




(* ------------------------------------------------------------------ *)
(** ** Whitespace *)

Lemma lstrip_nil_iff (s : str) : lstrip s = [] <-> forallb isspace s = true.
Proof.
  induction s as [| c r IH]; simpl.
  - split; reflexivity.
  - destruct (isspace c); simpl; [exact IH |].
    split; discriminate.
Qed.

Lemma lstrip_spaces_nil (s : str) :
  forallb isspace (lstrip s) = true -> lstrip s = [].
Proof.
  induction s as [| c r IH]; simpl; [reflexivity |].
  destruct (isspace c) eqn:E; [exact IH |].
  simpl. rewrite E. discriminate.
Qed.

Lemma forallb_rev {A : Type} (f : A -> bool) (l : list A) :
  forallb f (rev l) = forallb f l.
Proof.
  induction l as [| a l IH]; simpl; [reflexivity |].
  rewrite forallb_app, IH. simpl. rewrite andb_true_r. apply andb_comm.
Qed.

(** [not s.strip()] holds exactly for the strings of whitespace. *)
Lemma strip_nil_iff (s : str) : strip s = [] <-> forallb isspace s = true.
Proof.
  unfold strip, rstrip. split.
  - intro H.
    assert (H1 : lstrip (rev (lstrip s)) = []).
    { rewrite <- (rev_involutive (lstrip (rev (lstrip s)))), H. reflexivity. }
    apply lstrip_nil_iff in H1. rewrite forallb_rev in H1.
    apply lstrip_nil_iff. apply lstrip_spaces_nil. exact H1.
  - intro H. apply lstrip_nil_iff in H. rewrite H. reflexivity.
Qed.

Lemma join_space_blank (parts : list str) :
  Forall blank_text parts -> blank_text (join space parts).
Proof.
  unfold blank_text. intro H. apply strip_nil_iff.
  induction H as [| p rest Hp Hrest IH]; [reflexivity |].
  cbn [join]. destruct rest as [| q rest'].
  - apply strip_nil_iff. exact Hp.
  - rewrite !forallb_app. apply strip_nil_iff in Hp. rewrite Hp, IH.
    reflexivity.
Qed.

(* ------------------------------------------------------------------ *)
(** ** Text assembly: the claims *)

Lemma extract_step_line (lines : list str) (g : list detection) :
  g <> [] -> extract_step lines g = lines ++ [line_of g].
Proof.
  destruct g as [| r g]; [contradiction | reflexivity].
Qed.

Lemma line_of_nil_iff (g : list detection) :
  g <> [] ->
  (line_of g = [] <-> exists r, g = [r] /\ d_text r = []).
Proof.
  intro Hg. destruct g as [| r g]; [contradiction |].
  unfold line_of. cbn [List.map join].
  destruct g as [| r2 g]; cbn [List.map].
  - split.
    + intro H. exists r. split; [reflexivity | exact H].
    + intros [r' [E H]]. injection E as <-. exact H.
  - split.
    + intro H. apply app_eq_nil in H. destruct H as [_ H].
      apply app_eq_nil in H. destruct H as [H _]. discriminate H.
    + intros [r' [E _]]. discriminate E.
Qed.

(** C4, as amended.  A Line Group whose members all have a text that is
    empty after trimming contributes one line, the texts joined with
    single spaces and not trimmed: that line is empty after trimming,
    and it is the empty string exactly when the group is a single
    member whose text is the empty string. *)
Theorem blank_group_gives_blank_line (lines : list str) (g : list detection) :
  g <> [] ->
  Forall (fun r => blank_text (d_text r)) g ->
  extract_step lines g = lines ++ [line_of g] /\
  blank_text (line_of g) /\
  (line_of g = [] <-> exists r, g = [r] /\ d_text r = []).
Proof.
  intros Hg Hall. split; [apply extract_step_line; exact Hg |].
  split.
  - apply join_space_blank. apply Forall_map. exact Hall.
  - apply line_of_nil_iff. exact Hg.
Qed.

Lemma blank_group_gives_blank_line_witness :
  [blank one; blank one] <> [] /\
  Forall (fun r => blank_text (d_text r)) [blank one; blank one] /\
  blank_text (line_of [blank one; blank one]).
Proof.
  assert (Hg : [blank one; blank one] <> []) by discriminate.
  assert (Hall : Forall (fun r => blank_text (d_text r)) [blank one; blank one])
    by (repeat constructor).
  split; [exact Hg |]. split; [exact Hall |].
  exact (proj1 (proj2 (blank_group_gives_blank_line [] _ Hg Hall))).
Defined.

(** C4 as stated fails: two detections with the empty text on one line
    make the Line Group [[blank; blank]], whose members are all empty
    after trimming, and the line it contributes is one space. *)
Lemma blank_group_line_not_empty :
  line_groups_of [blank one; blank one] = [[blank one; blank one]] /\
  Forall (fun r => blank_text (d_text r)) [blank one; blank one] /\
  extracted_lines_of (line_groups_of [blank one; blank one]) = [lit " "] /\
  line_of [blank one; blank one] <> [].
Proof.
  split; [vm_compute; reflexivity |].
  split; [repeat constructor |].
  split; [vm_compute; reflexivity |].
  vm_compute. discriminate.
Qed.

(** C5.  When the arguments are in order, the image exists, EasyOCR is
    there and recognition returns: with zero detections, or with a
    document that is empty or all whitespace, the program returns 1 and
    has written nothing, neither to standard output nor to standard
    error; zero detections give the empty document. *)
Theorem empty_result_is_silent (env : environment) (results : list detection) :
  List.length (argv env) = 2%nat ->
  path_exists env (nth 1 (argv env) []) = true ->
  import_easyocr env = Imported ->
  readtext env (nth 1 (argv env) []) = Returns results ->
  results = [] \/ extracted_text results = [] \/
    forallb isspace (extracted_text results) = true ->
  extracted_text [] = [] /\
  main env = Return (Outcome 1 [] []) /\
  script env = Outcome 1 [] [].
Proof.
  intros Hargc Hexists Hfound Hread Hempty.
  split; [reflexivity |].
  assert (Hstrip : strip (extracted_text results) = []).
  { destruct Hempty as [-> | [-> | H]];
      [reflexivity | reflexivity | apply strip_nil_iff; exact H]. }
  assert (Hmain : main env = Return (Outcome 1 [] [])).
  { unfold main.
    rewrite Hargc, Hexists, Hfound, Hread. cbn [Nat.eqb negb].
    rewrite Hstrip. reflexivity. }
  split; [exact Hmain |]. unfold script. rewrite Hmain. reflexivity.
Qed.

Lemma empty_result_is_silent_witness :
  main (sample_env [blank one; blank one]) = Return (Outcome 1 [] []) /\
  main (sample_env []) = Return (Outcome 1 [] []).
Proof.
  split.
  - apply (empty_result_is_silent (sample_env [blank one; blank one])
             [blank one; blank one]);
      [reflexivity | reflexivity | reflexivity | reflexivity |].
    right. right. vm_compute. reflexivity.
  - apply (empty_result_is_silent (sample_env []) []);
      [reflexivity | reflexivity | reflexivity | reflexivity |].
    left. reflexivity.
Defined.

(** C6.  The detections "Hello" (quad [[0,0],[10,0],[10,5],[0,5]]) and
    "World" (quad [[20,1],[30,1],[30,6],[20,6]]) have the vertical
    centres 2.5 and 3.5, which are 1.0 apart, and give the one-line
    document "Hello World" in either input order, whatever their
    confidences. *)
Theorem hello_world_single_line (c1 c2 : F64.float) :
  F64.value (get_y_center (d_bbox (hello c1))) == 5 # 2 /\
  F64.value (get_y_center (d_bbox (world c2))) == 7 # 2 /\
  F64.sub (get_y_center (d_bbox (world c2))) (get_y_center (d_bbox (hello c1)))
    = F64.of_int 1 /\
  extracted_text [hello c1; world c2] = lit "Hello World" /\
  extracted_text [world c2; hello c1] = lit "Hello World".
Proof.
  repeat split; vm_compute; reflexivity.
Qed.

(* ------------------------------------------------------------------ *)
(** ** Two detections on one height *)

Lemma pair_in_key_order (lo hi : detection) :
  F64.eqb (get_y_center (d_bbox lo)) (get_y_center (d_bbox hi)) = true ->
  F64.ltb (get_x_min (d_bbox lo)) (get_x_min (d_bbox hi)) = true ->
  sorted_results [lo; hi] = [lo; hi] /\ sorted_results [hi; lo] = [lo; hi].
Proof.
  intros Hy Hx.
  apply eqb_rank in Hy. destruct Hy as (Nl & Nh & Hy).
  apply ltb_rank in Hx. destruct Hx as (Nl' & Nh' & Hx).
  assert (Hlt : key_ltb (sort_key lo) (sort_key hi) = true).
  { apply (key_ltb_iff (sort_key lo) (sort_key hi)); try assumption.
    right. split; assumption. }
  assert (Hge : key_ltb (sort_key hi) (sort_key lo) = false).
  { apply (key_ltb_false_iff (sort_key hi) (sort_key lo)); try assumption.
    unfold sort_key. ranks. lia. }
  unfold sorted_results, sorted_from. cbn [fold_left insert_sorted].
  rewrite Hlt, Hge. split; reflexivity.
Qed.

Lemma pair_one_group (lo hi : detection) :
  F64.eqb (get_y_center (d_bbox lo)) (get_y_center (d_bbox hi)) = true ->
  group_lines [lo; hi] = [[lo; hi]].
Proof.
  intro Hy. rewrite group_lines_cons. cbn [chunks].
  rewrite same_height_no_new_line; [reflexivity |].
  apply eqb_rank in Hy. apply eqb_rank. ranks.
  destruct Hy as (? & ? & ?). repeat split; try assumption; lia.
Qed.

(** C7, as amended.  Two detections whose computed (binary64) yCenter
    is equal and whose xMin differs (both numbers) make one Line Group,
    the one with the smaller xMin first, in whichever order they are
    supplied; the document is the text of the left one, a space and the
    text of the right one, in both orders.  Inside any input without
    NaN keys, too, the two are in one Line Group and the one with the
    smaller xMin comes first. *)
Theorem tie_on_y_orders_by_x_min (a b : detection) :
  F64.eqb (get_y_center (d_bbox a)) (get_y_center (d_bbox b)) = true ->
  number (get_x_min (d_bbox a)) -> number (get_x_min (d_bbox b)) ->
  F64.eqb (get_x_min (d_bbox a)) (get_x_min (d_bbox b)) = false ->
  (exists lo hi,
    ((lo = a /\ hi = b) \/ (lo = b /\ hi = a)) /\
    F64.ltb (get_x_min (d_bbox lo)) (get_x_min (d_bbox hi)) = true /\
    line_groups_of [a; b] = [[lo; hi]] /\
    line_groups_of [b; a] = [[lo; hi]] /\
    extracted_text [a; b] = d_text lo ++ space ++ d_text hi /\
    extracted_text [b; a] = extracted_text [a; b]) /\
  (forall results d i j,
      Forall numeric_keys results ->
      (i < List.length (sorted_results results))%nat ->
      (j < List.length (sorted_results results))%nat ->
      nth i (sorted_results results) d = a ->
      nth j (sorted_results results) d = b ->
      group_index (line_groups_of results) i =
        group_index (line_groups_of results) j /\
      ((i < j)%nat <->
       F64.ltb (get_x_min (d_bbox a)) (get_x_min (d_bbox b)) = true)).
Proof.
  intros Hy Na Nb Hx.
  assert (Hgen : forall lo hi,
             F64.eqb (get_y_center (d_bbox lo)) (get_y_center (d_bbox hi)) = true ->
             F64.ltb (get_x_min (d_bbox lo)) (get_x_min (d_bbox hi)) = true ->
             line_groups_of [lo; hi] = [[lo; hi]] /\
             line_groups_of [hi; lo] = [[lo; hi]] /\
             extracted_text [lo; hi] = d_text lo ++ space ++ d_text hi /\
             extracted_text [hi; lo] = d_text lo ++ space ++ d_text hi).
  { intros lo hi Hy' Hx'.
    destruct (pair_in_key_order lo hi Hy' Hx') as [S1 S2].
    unfold extracted_text, line_groups_of. rewrite S1, S2.
    rewrite (pair_one_group lo hi Hy').
    repeat split; reflexivity. }
  assert (Hy' : F64.eqb (get_y_center (d_bbox b)) (get_y_center (d_bbox a)) = true).
  { apply eqb_rank in Hy. apply eqb_rank. ranks.
    destruct Hy as (? & ? & ?). repeat split; try assumption; lia. }
  pose proof (proj1 (eqb_false_rank _ _ Na Nb) Hx) as Hcmp.
  split.
  - destruct Hcmp as [Hlt | Hlt].
    + assert (Hl : F64.ltb (get_x_min (d_bbox a)) (get_x_min (d_bbox b)) = true)
        by (apply ltb_rank; split; [| split]; assumption).
      destruct (Hgen a b Hy Hl) as [G1 [G2 [T1 T2]]].
      exists a, b. split; [left; split; reflexivity |].
      split; [exact Hl |]. split; [exact G1 |]. split; [exact G2 |].
      split; [exact T1 |]. rewrite T1, T2. reflexivity.
    + assert (Hl : F64.ltb (get_x_min (d_bbox b)) (get_x_min (d_bbox a)) = true)
        by (apply ltb_rank; split; [| split]; assumption).
      destruct (Hgen b a Hy' Hl) as [G1 [G2 [T1 T2]]].
      exists b, a. split; [right; split; reflexivity |].
      split; [exact Hl |]. split; [exact G2 |]. split; [exact G1 |].
      split; [exact T2 |]. rewrite T1, T2. reflexivity.
  - intros results d i j Hn Hi Hj Ha Hb.
    assert (Hs : StronglySorted kle (sorted_results results))
      by (apply sorted_results_sorted; exact Hn).
    assert (Hn' : Forall numeric_keys (sorted_results results))
      by (apply sorted_results_numeric; exact Hn).
    unfold line_groups_of. rewrite ltb_rank.
    apply eqb_rank in Hy. destruct Hy as (Nya & Nyb & Hy).
    destruct (Nat.lt_trichotomy i j) as [Hij | [Heq | Hji]].
    + split.
      * apply (same_y_same_group d); [exact Hn' | exact Hs | lia | exact Hj |].
        rewrite Ha, Hb. apply eqb_rank. exact (conj Nya (conj Nyb Hy)).
      * split; [intros _ | intros _; exact Hij].
        pose proof (sorted_nth _ Hs i j d Hij Hj) as Hk.
        rewrite Ha, Hb in Hk. unfold kle, sort_key in Hk.
        repeat split; try assumption. ranks. lia.
    + exfalso. subst j. rewrite Ha in Hb. subst b. ranks. lia.
    + split.
      * symmetry. apply (same_y_same_group d);
          [exact Hn' | exact Hs | lia | exact Hi |].
        rewrite Ha, Hb. exact Hy'.
      * pose proof (sorted_nth _ Hs j i d Hji Hi) as Hk.
        rewrite Ha, Hb in Hk. unfold kle, sort_key in Hk.
        split; [intro H; lia |].
        intros (_ & _ & H). exfalso. ranks. lia.
Qed.

Lemma tie_on_y_orders_by_x_min_witness :
  exists lo hi,
    ((lo = world_level one /\ hi = hello one) \/
     (lo = hello one /\ hi = world_level one)) /\
    F64.ltb (get_x_min (d_bbox lo)) (get_x_min (d_bbox hi)) = true /\
    line_groups_of [world_level one; hello one] = [[lo; hi]] /\
    line_groups_of [hello one; world_level one] = [[lo; hi]] /\
    extracted_text [world_level one; hello one] =
      d_text lo ++ space ++ d_text hi /\
    extracted_text [hello one; world_level one] =
      extracted_text [world_level one; hello one].
Proof.
  refine (proj1 (tie_on_y_orders_by_x_min (world_level one) (hello one) _ _ _ _));
    vm_compute; reflexivity.
Defined.

(** C7 as stated fails: "a" (corners at 0.1, 0.2, 0.3, 0.4, left edge 0)
    and "b" (corners at 0.4, 0.3, 0.2, 0.1, left edge 20) have the same
    arithmetic mean of the y-coordinates and different xMin; they make
    one Line Group, but with "b", whose xMin is the larger, first, in
    both input orders. *)
Lemma equal_means_larger_x_min_first :
  exact_mean (d_bbox (rising 0 "a")) == exact_mean (d_bbox (falling 20 "b")) /\
  F64.ltb (get_x_min (d_bbox (rising 0 "a")))
          (get_x_min (d_bbox (falling 20 "b"))) = true /\
  line_groups_of [rising 0 "a"; falling 20 "b"] =
    [[falling 20 "b"; rising 0 "a"]] /\
  line_groups_of [falling 20 "b"; rising 0 "a"] =
    [[falling 20 "b"; rising 0 "a"]] /\
  extracted_text [rising 0 "a"; falling 20 "b"] = lit "b a".
Proof.
  split; [vm_compute; reflexivity |].
  split; [vm_compute; reflexivity |].
  split; [vm_compute; reflexivity |].
  split; vm_compute; reflexivity.
Qed.

(* ------------------------------------------------------------------ *)
(** ** Confidence *)

Lemma same_but_confidence_key (a b : detection) :
  same_but_confidence a b -> sort_key a = sort_key b.
Proof.
  intros [Hb _]. unfold sort_key. rewrite Hb. reflexivity.
Qed.

Lemma insert_sorted_same (x x' : detection) (acc acc' : list detection) :
  same_but_confidence x x' ->
  Forall2 same_but_confidence acc acc' ->
  Forall2 same_but_confidence (insert_sorted x acc) (insert_sorted x' acc').
Proof.
  intros Hx Hacc. induction Hacc as [| y y' rest rest' Hy Hrest IH]; simpl.
  - constructor; [exact Hx | constructor].
  - rewrite (same_but_confidence_key x x' Hx), (same_but_confidence_key y y' Hy).
    destruct (key_ltb (sort_key x') (sort_key y')).
    + constructor; [exact Hx |]. constructor; assumption.
    + constructor; assumption.
Qed.

Lemma sorted_from_same (results results' : list detection) :
  Forall2 same_but_confidence results results' ->
  forall acc acc',
    Forall2 same_but_confidence acc acc' ->
    Forall2 same_but_confidence
      (sorted_from acc results) (sorted_from acc' results').
Proof.
  induction 1 as [| x x' rest rest' Hx Hrest IH]; intros acc acc' Hacc.
  - exact Hacc.
  - unfold sorted_from in *. cbn [fold_left].
    apply IH. apply insert_sorted_same; assumption.
Qed.

Lemma chunks_same (l l' : list detection) :
  Forall2 same_but_confidence l l' ->
  forall cur cur' ly,
    Forall2 same_but_confidence cur cur' ->
    Forall2 (Forall2 same_but_confidence)
      (chunks cur ly l) (chunks cur' ly l').
Proof.
  induction 1 as [| r r' rest rest' Hr Hrest IH]; intros cur cur' ly Hcur.
  - constructor; [exact Hcur | constructor].
  - cbn [chunks]. destruct Hr as [Hb Ht]. rewrite <- Hb.
    destruct (new_line_detected (get_y_center (d_bbox r)) ly).
    + constructor; [exact Hcur |].
      apply IH. constructor; [split; assumption | constructor].
    + apply IH. apply Forall2_app; [exact Hcur |].
      constructor; [split; assumption | constructor].
Qed.

Lemma group_lines_same (l l' : list detection) :
  Forall2 same_but_confidence l l' ->
  Forall2 (Forall2 same_but_confidence) (group_lines l) (group_lines l').
Proof.
  intro H. destruct H as [| r r' rest rest' Hr Hrest].
  - constructor.
  - rewrite !group_lines_cons.
    replace (get_y_center (d_bbox r')) with (get_y_center (d_bbox r))
      by (destruct Hr as [-> _]; reflexivity).
    apply chunks_same; [exact Hrest |].
    constructor; [exact Hr | constructor].
Qed.

Lemma texts_same (g g' : list detection) :
  Forall2 same_but_confidence g g' -> List.map d_text g = List.map d_text g'.
Proof.
  induction 1 as [| r r' g g' [_ Ht] _ IH]; simpl; [reflexivity |].
  rewrite Ht, IH. reflexivity.
Qed.

Lemma extracted_lines_same (gs gs' : list (list detection)) :
  Forall2 (Forall2 same_but_confidence) gs gs' ->
  forall lines, fold_left extract_step gs lines = fold_left extract_step gs' lines.
Proof.
  induction 1 as [| g g' gs gs' Hg _ IH]; intro lines; cbn [fold_left].
  - reflexivity.
  - unfold extract_step at 2 4. rewrite (texts_same g g' Hg). apply IH.
Qed.

(** C9.  The confidences do not reach the document: two inputs whose
    detections agree, position by position, in bbox and text give the
    same sorted order up to confidence, the same grouping up to
    confidence and the same Extracted Document. *)
Theorem confidence_is_ignored (results results' : list detection) :
  Forall2 same_but_confidence results results' ->
  Forall2 same_but_confidence (sorted_results results) (sorted_results results') /\
  Forall2 (Forall2 same_but_confidence)
    (line_groups_of results) (line_groups_of results') /\
  extracted_text results = extracted_text results'.
Proof.
  intro H.
  assert (Hs : Forall2 same_but_confidence
                 (sorted_results results) (sorted_results results')).
  { apply sorted_from_same; [exact H | constructor]. }
  assert (Hg : Forall2 (Forall2 same_but_confidence)
                 (line_groups_of results) (line_groups_of results')).
  { apply group_lines_same. exact Hs. }
  split; [exact Hs |]. split; [exact Hg |].
  unfold extracted_text, extracted_lines_of.
  rewrite (extracted_lines_same _ _ Hg). reflexivity.
Qed.

Lemma confidence_is_ignored_witness :
  Forall2 same_but_confidence
    [goodbye (F64.dec 1 2); world (F64.dec 9 10); hello (F64.of_int 0)]
    [goodbye (F64.dec 3 4); world (F64.dec 1 10); hello one] /\
  extracted_text
    [goodbye (F64.dec 1 2); world (F64.dec 9 10); hello (F64.of_int 0)] =
  extracted_text [goodbye (F64.dec 3 4); world (F64.dec 1 10); hello one].
Proof.
  assert (H : Forall2 same_but_confidence
                [goodbye (F64.dec 1 2); world (F64.dec 9 10); hello (F64.of_int 0)]
                [goodbye (F64.dec 3 4); world (F64.dec 1 10); hello one])
    by (repeat constructor).
  split; [exact H |].
  exact (proj2 (proj2 (confidence_is_ignored _ _ H))).
Defined.

(* ------------------------------------------------------------------ *)
(** ** The machine *)

Lemma exec_deterministic (c c1 c2 : config) :
  exec c c1 -> exec c c2 -> c1 = c2.
Proof.
  intros H1 H2.
  inversion H1; subst; inversion H2; subst;
    try reflexivity; try congruence; try contradiction.
Qed.

Lemma finished_is_final (text : str) (v : vars) (c : config) :
  ~ exec (Finished text, v) c.
Proof. intro H. inversion H. Qed.

Lemma reaches_trans (a b c : config) :
  reaches a b -> reaches b c -> reaches a c.
Proof.
  unfold reaches. induction 1 as [| x y z Hxy Hyz IH]; intro Hc.
  - exact Hc.
  - eapply rt1n_trans; [exact Hxy | apply IH; exact Hc].
Qed.

Lemma reaches_one (a b : config) : exec a b -> reaches a b.
Proof. intro H. eapply rt1n_trans; [exact H | apply rt1n_refl]. Qed.

Lemma reaches_finished_unique (c : config) (t1 t2 : str) (v1 v2 : vars) :
  reaches c (Finished t1, v1) -> reaches c (Finished t2, v2) ->
  (Finished t1, v1) = (Finished t2, v2).
Proof.
  unfold reaches. intro H1. revert t2 v2.
  remember (Finished t1, v1) as f eqn:Ef.
  induction H1 as [x | x y z Hxy Hyz IH]; intros t2 v2 H2.
  - subst x. inversion H2 as [| y ? Hstep Hrest]; subst.
    + reflexivity.
    + exfalso. exact (finished_is_final _ _ _ Hstep).
  - inversion H2 as [| y' ? Hstep Hrest]; subst.
    + exfalso. exact (finished_is_final _ _ _ Hxy).
    + rewrite (exec_deterministic _ _ _ Hstep Hxy) in Hrest.
      apply IH; [reflexivity | exact Hrest].
Qed.

Lemma exec_keeps_results (c c' : config) :
  exec c c' -> v_results (snd c') = v_results (snd c).
Proof. intro H. inversion H; subst; reflexivity. Qed.

Lemma reaches_keeps_results (c c' : config) :
  reaches c c' -> v_results (snd c') = v_results (snd c).
Proof.
  unfold reaches. induction 1 as [| x y z Hxy _ IH]; [reflexivity |].
  rewrite IH. apply exec_keeps_results. exact Hxy.
Qed.

Lemma exec_walk_one (r : detection) (todo : list detection) (v : vars) :
  exists v',
    exec (AtWalk (r :: todo), v) (AtWalk todo, v') /\
    walk_of v' = walk_step (walk_of v) r /\
    v_extracted_lines v' = v_extracted_lines v.
Proof.
  unfold walk_step, walk_of. cbn [last_y current_line line_groups].
  destruct (v_last_y v) as [ly |] eqn:Ely.
  - destruct (new_line_detected (get_y_center (d_bbox r)) ly) eqn:En.
    + destruct (v_current_line v) as [| c cs] eqn:Ec.
      * exists (append_current v r).
        split; [eapply exec_new_line_nothing_open; eassumption |].
        cbn. rewrite Ec. split; reflexivity.
      * exists (append_current (close_current v) r).
        split; [eapply exec_new_line; try eassumption; rewrite Ec; discriminate |].
        cbn. rewrite Ec. split; reflexivity.
    + exists (append_current v r).
      split; [eapply exec_same_line; eassumption |].
      cbn. split; reflexivity.
  - exists (append_current v r).
    split; [apply exec_first; exact Ely |].
    cbn. split; reflexivity.
Qed.

Lemma exec_walk_loop (todo : list detection) :
  forall v, exists v',
    reaches (AtWalk todo, v) (AtLastLine, v') /\
    walk_of v' = walk (walk_of v) todo /\
    v_extracted_lines v' = v_extracted_lines v.
Proof.
  induction todo as [| r todo IH]; intro v.
  - exists v. split; [apply reaches_one, exec_walk_done |].
    split; reflexivity.
  - destruct (exec_walk_one r todo v) as [v1 [Hstep [Hw Hl]]].
    destruct (IH v1) as [v' [Hrun [Hw' Hl']]].
    exists v'. split.
    + eapply rt1n_trans; [exact Hstep | exact Hrun].
    + unfold walk in *. cbn [fold_left]. rewrite <- Hw.
      split; [exact Hw' | congruence].
Qed.

Lemma exec_add_last_line (v : vars) :
  exists v',
    exec (AtLastLine, v) (AtExtract (add_last_line (walk_of v)), v') /\
    v_extracted_lines v' = [].
Proof.
  unfold add_last_line, walk_of. cbn [current_line line_groups].
  destruct (v_current_line v) as [| c cs] eqn:Ec.
  - exists (clear_lines v). split; [| reflexivity].
    apply exec_no_last_line. exact Ec.
  - exists (clear_lines (close_current v)). split; [| reflexivity].
    rewrite <- Ec. apply exec_last_line. rewrite Ec. discriminate.
Qed.

Lemma exec_extract_loop (todo : list (list detection)) :
  forall v, exists v',
    reaches (AtExtract todo, v) (AtJoin, v') /\
    v_extracted_lines v' = fold_left extract_step todo (v_extracted_lines v).
Proof.
  induction todo as [| g todo IH]; intro v.
  - exists v. split; [apply reaches_one, exec_extract_done | reflexivity].
  - cbn [fold_left]. unfold extract_step at 2.
    destruct (List.map d_text g) as [| t ts] eqn:Eg.
    + destruct (IH v) as [v' [Hrun Hl]].
      exists v'. split; [| exact Hl].
      eapply rt1n_trans; [apply exec_extract_nothing; exact Eg | exact Hrun].
    + destruct (IH (append_line v (join space (List.map d_text g))))
        as [v' [Hrun Hl]].
      exists v'. split.
      * eapply rt1n_trans; [| exact Hrun].
        apply exec_extract. rewrite Eg. discriminate.
      * rewrite Hl. cbn [append_line v_extracted_lines]. rewrite Eg.
        reflexivity.
Qed.

Lemma reconstructs_extracted_text (results : list detection) :
  reconstructs results (extracted_text results).
Proof.
  unfold reconstructs, start.
  set (v0 := Vars results [] [] [] None []).
  destruct (exec_walk_loop (sorted_results results)
              (set_sorted v0 (sorted_results results)))
    as [v1 [Hwalk [Hw1 _]]].
  destruct (exec_add_last_line v1) as [v2 [Hlast Hl2]].
  destruct (exec_extract_loop (add_last_line (walk_of v1)) v2)
    as [v3 [Hextract Hl3]].
  exists v3.
  eapply rt1n_trans; [apply exec_sort |].
  eapply reaches_trans; [exact Hwalk |].
  eapply rt1n_trans; [exact Hlast |].
  eapply reaches_trans; [exact Hextract |].
  replace (extracted_text results) with (join newline (v_extracted_lines v3)).
  - apply reaches_one, exec_join.
  - rewrite Hl3, Hl2, Hw1. reflexivity.
Qed.

(** C8.  The Line Reconstructor is deterministic and touches nothing but
    its own variables: on every input there is an evaluation, it ends
    with [extracted_text results]; any two evaluations of one input end
    with the same document, character for character; and the input list
    is the same at every point of an evaluation. *)
Theorem reconstruction_is_deterministic (results : list detection) :
  reconstructs results (extracted_text results) /\
  (forall t1 t2,
      reconstructs results t1 -> reconstructs results t2 -> t1 = t2) /\
  (forall c, reaches (start results) c -> v_results (snd c) = results).
Proof.
  split; [apply reconstructs_extracted_text |]. split.
  - intros t1 t2 [v1 H1] [v2 H2].
    pose proof (reaches_finished_unique _ _ _ _ _ H1 H2) as E.
    congruence.
  - intros c H. apply (reaches_keeps_results _ _ H).
Qed.

Lemma reconstruction_is_deterministic_witness :
  lit "Hello World" = extracted_text [world one; hello one].
Proof.
  apply (proj1 (proj2 (reconstruction_is_deterministic [world one; hello one]))).
  - exact (proj1 (reconstruction_is_deterministic [world one; hello one])).
  - apply reconstructs_extracted_text.
Defined.

(* ================================================================== *)
(** * Further properties of the program *)

(* ------------------------------------------------------------------ *)
(** ** Lines and the document *)

Lemma join_snoc (sep p : str) (parts : list str) :
  parts <> [] -> join sep (parts ++ [p]) = join sep parts ++ sep ++ p.
Proof.
  induction parts as [| a parts IH]; intro Hne; [contradiction |].
  destruct parts as [| b parts].
  - reflexivity.
  - change (join sep ((a :: b :: parts) ++ [p]))
      with (a ++ sep ++ join sep ((b :: parts) ++ [p])).
    rewrite IH by discriminate.
    change (join sep (a :: b :: parts)) with (a ++ sep ++ join sep (b :: parts)).
    rewrite <- !app_assoc. reflexivity.
Qed.

Lemma join_cons (sep p : str) (parts : list str) :
  parts <> [] -> join sep (p :: parts) = p ++ sep ++ join sep parts.
Proof.
  destruct parts as [| q parts]; [contradiction | reflexivity].
Qed.

Lemma line_of_snoc (cur : list detection) (r : detection) :
  cur <> [] -> line_of (cur ++ [r]) = line_of cur ++ space ++ d_text r.
Proof.
  intro Hne. unfold line_of. rewrite map_app. cbn [List.map].
  apply join_snoc. destruct cur; [contradiction | discriminate].
Qed.

Lemma extracted_lines_fold (gs : list (list detection)) :
  Forall (fun g => g <> []) gs ->
  forall lines, fold_left extract_step gs lines = lines ++ List.map line_of gs.
Proof.
  induction 1 as [| g gs Hg _ IH]; intro lines; cbn [fold_left List.map].
  - rewrite app_nil_r. reflexivity.
  - rewrite IH, (extract_step_line lines g Hg), <- app_assoc. reflexivity.
Qed.

Lemma chunks_not_nil (l : list detection) (cur : list detection) (ly : F64.float) :
  chunks cur ly l <> [].
Proof.
  revert cur ly. induction l as [| r rest IH]; intros cur ly; cbn [chunks].
  - discriminate.
  - destruct (new_line_detected _ ly); [discriminate | apply IH].
Qed.

Lemma chunks_glue (l : list detection) :
  forall cur ly,
    cur <> [] ->
    join newline (List.map line_of (chunks cur ly l)) =
    line_of cur ++ glue_from ly l.
Proof.
  induction l as [| r rest IH]; intros cur ly Hcur; cbn [chunks glue_from].
  - cbn [List.map join]. rewrite app_nil_r. reflexivity.
  - destruct (new_line_detected (get_y_center (d_bbox r)) ly).
    + cbn [List.map]. rewrite join_cons.
      * rewrite IH by discriminate.
        unfold line_of at 2. cbn [List.map join]. reflexivity.
      * intro H. apply map_eq_nil in H. exact (chunks_not_nil _ _ _ H).
    + rewrite IH by (destruct cur; discriminate).
      rewrite line_of_snoc by exact Hcur.
      rewrite <- !app_assoc. reflexivity.
Qed.

Lemma extracted_lines_of_groups (results : list detection) :
  extracted_lines_of (line_groups_of results) =
  List.map line_of (line_groups_of results).
Proof.
  unfold extracted_lines_of.
  rewrite extracted_lines_fold by apply group_lines_nonempty.
  reflexivity.
Qed.

Lemma extracted_text_glue (results : list detection) :
  extracted_text results = glue (sorted_results results).
Proof.
  unfold extracted_text. rewrite extracted_lines_of_groups.
  unfold line_groups_of.
  destruct (sorted_results results) as [| r rest]; [reflexivity |].
  rewrite group_lines_cons, chunks_glue by discriminate.
  reflexivity.
Qed.

(** X1.  The three loops amount to one pass over the sorted detections:
    the document is the texts in sorted order, with one separator in
    front of every detection but the first, a newline where the centre
    is more than the tolerance from that of the detection before it and
    a space elsewhere. *)
Theorem document_in_one_pass (results : list detection) :
  extracted_text results = glue (sorted_results results).
Proof. exact (extracted_text_glue results). Qed.

Lemma list_sum_perm (f : detection -> nat) (l l' : list detection) :
  Permutation l l' -> list_sum (List.map f l) = list_sum (List.map f l').
Proof.
  induction 1 as [| x l l' _ IH | x y l | l l' l'' _ IH1 _ IH2];
    simpl; lia.
Qed.

Lemma glue_from_length (l : list detection) :
  forall ly,
    List.length (glue_from ly l) =
    (list_sum (List.map (fun r => List.length (d_text r)) l) + List.length l)%nat.
Proof.
  induction l as [| r rest IH]; intro ly; cbn [glue_from]; [reflexivity |].
  rewrite !length_app, IH.
  destruct (new_line_detected _ ly); simpl; lia.
Qed.

(** X2.  Nothing is lost and nothing is added: the document has the
    characters of all the texts and one separator between neighbours,
    so its length is the sum of the text lengths plus the number of
    detections less one. *)
Theorem document_length (results : list detection) :
  List.length (extracted_text results) =
  (list_sum (List.map (fun r => List.length (d_text r)) results)
   + (List.length results - 1))%nat.
Proof.
  rewrite extracted_text_glue.
  rewrite (list_sum_perm _ _ _ (sorted_results_perm results)).
  rewrite (Permutation_length (sorted_results_perm results)).
  destruct (sorted_results results) as [| r rest]; [reflexivity |].
  cbn [glue]. rewrite length_app, glue_from_length.
  simpl. lia.
Qed.

Lemma chunks_length (l : list detection) :
  forall cur ly, List.length (chunks cur ly l) = S (count_breaks ly l).
Proof.
  induction l as [| r rest IH]; intros cur ly; cbn [chunks count_breaks].
  - reflexivity.
  - destruct (new_line_detected _ ly); cbn [List.length]; rewrite IH; lia.
Qed.

(** X3.  There are as many lines as Line Groups, and one more Line Group
    than there are sorted detections further than the tolerance from
    their predecessor. *)
Theorem line_count (results : list detection) :
  List.length (extracted_lines_of (line_groups_of results)) =
    List.length (line_groups_of results) /\
  List.length (line_groups_of results) =
    match sorted_results results with
    | [] => 0%nat
    | r :: rest => S (count_breaks (get_y_center (d_bbox r)) rest)
    end.
Proof.
  split.
  - rewrite extracted_lines_of_groups. apply length_map.
  - unfold line_groups_of.
    destruct (sorted_results results) as [| r rest]; [reflexivity |].
    rewrite group_lines_cons. apply chunks_length.
Qed.

(* ------------------------------------------------------------------ *)
(** ** Blank documents *)

Lemma glue_from_spaces (l : list detection) :
  forall ly,
    forallb isspace (glue_from ly l) =
    forallb (fun r => forallb isspace (d_text r)) l.
Proof.
  induction l as [| r rest IH]; intro ly; cbn [glue_from forallb];
    [reflexivity |].
  rewrite !forallb_app, IH.
  destruct (new_line_detected _ ly); reflexivity.
Qed.

Lemma glue_spaces (l : list detection) :
  forallb isspace (glue l) = forallb (fun r => forallb isspace (d_text r)) l.
Proof.
  destruct l as [| r rest]; [reflexivity |].
  cbn [glue forallb]. rewrite forallb_app, glue_from_spaces. reflexivity.
Qed.

Lemma blank_document_iff (results : list detection) :
  strip (extracted_text results) = [] <->
  Forall (fun r => blank_text (d_text r)) results.
Proof.
  rewrite strip_nil_iff, extracted_text_glue, glue_spaces, forallb_forall.
  rewrite Forall_forall. unfold blank_text. split; intros H r Hin.
  - apply strip_nil_iff. apply H.
    apply (Permutation_in _ (sorted_results_perm results)). exact Hin.
  - apply strip_nil_iff. apply H.
    apply (Permutation_in _ (Permutation_sym (sorted_results_perm results))).
    exact Hin.
Qed.

(** X4.  The document is blank (empty after trimming) exactly when the
    text of every detection is blank; the empty input is the case of no
    detection at all. *)
Theorem blank_document_iff_blank_texts (results : list detection) :
  strip (extracted_text results) = [] <->
  Forall (fun r => blank_text (d_text r)) results.
Proof. exact (blank_document_iff results). Qed.

(* ------------------------------------------------------------------ *)
(** ** The outcomes of [main] *)

Lemma write_error_not_nil (message : str) : write_error message <> [].
Proof.
  unfold write_error. intro H. apply app_eq_nil in H.
  destruct H as [_ H]. discriminate H.
Qed.


(** The ways an invocation can go, as the guards of [main] find them. *)
Lemma main_cases (env : environment) :
  (List.length (argv env) <> 2%nat /\
   main env = Return (Outcome 1 []
     (write_error (lit "Usage: extract_text_from_image.py <image_path>")))) \/
  (List.length (argv env) = 2%nat /\
   path_exists env (nth 1 (argv env) []) = false /\
   main env = Return (Outcome 1 []
     (write_error (lit "Error: Image file does not exist: "
                   ++ nth 1 (argv env) [])))) \/
  (List.length (argv env) = 2%nat /\
   path_exists env (nth 1 (argv env) []) = true /\
   import_easyocr env = NoModule /\
   main env = Return (Outcome 1 []
     (write_error (lit "Error: easyocr module not found. Please install it with: pip install easyocr")))) \/
  (List.length (argv env) = 2%nat /\
   path_exists env (nth 1 (argv env) []) = true /\
   exists report,
     import_easyocr env = ImportCrashes report /\
     main env = Escapes report) \/
  (checks_pass env /\
   exists e,
     readtext env (nth 1 (argv env) []) = Raises e /\
     main env = Return (Outcome 1 []
       (write_error (lit "Error: EasyOCR text extraction failed: " ++ e)))) \/
  (checks_pass env /\
   exists results,
     readtext env (nth 1 (argv env) []) = Returns results /\
     strip (extracted_text results) = [] /\
     main env = Return (Outcome 1 [] [])) \/
  (checks_pass env /\
   exists results e,
     readtext env (nth 1 (argv env) []) = Returns results /\
     strip (extracted_text results) <> [] /\
     print_raises env (extracted_text results) = Some e /\
     main env = Return (Outcome 1 []
       (write_error (lit "Error: EasyOCR text extraction failed: " ++ e)))) \/
  (checks_pass env /\
   exists results,
     readtext env (nth 1 (argv env) []) = Returns results /\
     strip (extracted_text results) <> [] /\
     print_raises env (extracted_text results) = None /\
     main env = Return (Outcome 0 (extracted_text results ++ newline) [])).
Proof.
  unfold main, checks_pass.
  destruct (List.length (argv env) =? 2)%nat eqn:Eargc; cbn [negb].
  - apply Nat.eqb_eq in Eargc.
    destruct (path_exists env (nth 1 (argv env) [])) eqn:Epath; cbn [negb].
    + destruct (import_easyocr env) as [| | report] eqn:Eimport.
      * destruct (readtext env (nth 1 (argv env) [])) as [results | e] eqn:Eread.
        -- destruct (strip (extracted_text results)) as [| c s] eqn:Estrip.
           ++ do 5 right. left.
              split; [repeat split; assumption |].
              exists results. repeat split; assumption.
           ++ destruct (print_raises env (extracted_text results))
                as [e |] eqn:Eprint.
              ** do 6 right. left.
                 split; [repeat split; assumption |].
                 exists results, e. rewrite Estrip.
                 repeat split; [discriminate | exact Eprint].
              ** do 7 right.
                 split; [repeat split; assumption |].
                 exists results. rewrite Estrip.
                 repeat split; [discriminate | exact Eprint].
        -- do 4 right. left.
           split; [repeat split; assumption |].
           exists e. split; reflexivity.
      * do 2 right. left. repeat split; assumption.
      * do 3 right. left. split; [exact Eargc |]. split; [reflexivity |].
        exists report. split; reflexivity.
    + right. left. repeat split; assumption.
  - apply Nat.eqb_neq in Eargc. left. split; [exact Eargc | reflexivity].
Qed.

(** The same for the process. *)
Lemma script_cases (env : environment) :
  (exists message,
     script env = Outcome 1 [] (write_error message)) \/
  (exists report,
     script env =
       Outcome 1 [] (lit "Traceback (most recent call last):" ++ newline ++ report)) \/
  (checks_pass env /\
   exists results,
     readtext env (nth 1 (argv env) []) = Returns results /\
     strip (extracted_text results) = [] /\
     script env = Outcome 1 [] []) \/
  (checks_pass env /\
   exists results,
     readtext env (nth 1 (argv env) []) = Returns results /\
     strip (extracted_text results) <> [] /\
     print_raises env (extracted_text results) = None /\
     script env = Outcome 0 (extracted_text results ++ newline) []).
Proof.
  unfold script.
  destruct (main_cases env)
    as [[_ E] | [[_ [_ E]] | [[_ [_ [_ E]]] | [[_ [_ [report [_ E]]]]
       | [[_ [e [_ E]]] | [[Hc [rs [Hr [Hs E]]]]
       | [[_ [rs [e [_ [_ [_ E]]]]]] | [Hc [rs [Hr [Hs [Hp E]]]]]]]]]]]];
    rewrite E.
  - left. eexists. reflexivity.
  - left. eexists. reflexivity.
  - left. eexists. reflexivity.
  - right. left. exists report. reflexivity.
  - left. eexists. reflexivity.
  - do 2 right. left. split; [exact Hc |]. exists rs. repeat split; assumption.
  - left. eexists. reflexivity.
  - do 3 right. split; [exact Hc |]. exists rs. repeat split; assumption.
Qed.

Lemma traceback_not_nil (report : str) :
  lit "Traceback (most recent call last):" ++ newline ++ report <> [].
Proof. discriminate. Qed.




(** X7.  The process fails without a word exactly in the empty-result
    case: exit code 1 with nothing on standard error means that the
    checks passed, recognition returned, and every text was blank (no
    detection at all included).  Every other failure leaves a
    diagnostic. *)
Theorem silent_failure_iff_empty_result (env : environment) :
  (exit_code (script env) = 1%Z /\ stderr (script env) = []) <->
  checks_pass env /\
  exists results,
    readtext env (nth 1 (argv env) []) = Returns results /\
    Forall (fun r => blank_text (d_text r)) results.
Proof.
  split.
  - intros [H1 He].
    destruct (script_cases env)
      as [[m E] | [[report E] | [[Hc [rs [Hr [Hs E]]]]
         | [_ [rs [_ [_ [_ E]]]]]]]];
      rewrite E in H1, He; cbn [exit_code stderr] in H1, He.
    + exfalso. exact (write_error_not_nil _ He).
    + exfalso. exact (traceback_not_nil _ He).
    + split; [exact Hc |]. exists rs. split; [exact Hr |].
      apply blank_document_iff. exact Hs.
    + discriminate H1.
  - intros [Hc [rs [Hr Hb]]].
    apply blank_document_iff in Hb.
    destruct Hc as [Hargc [Hpath Hfound]].
    unfold script, main. rewrite Hargc, Hpath, Hfound, Hr. cbn [Nat.eqb negb].
    rewrite Hb. split; reflexivity.
Qed.

(** X8.  Whatever [main] itself writes to standard error before it
    returns is one message closed by a newline, and it is the usage
    line or begins with "Error: ".  (An exception that leaves [main] is
    reported by the interpreter instead, with a traceback.) *)
Theorem diagnostics_are_marked (env : environment) (o : outcome) :
  main env = Return o ->
  stderr o = [] \/
  ((starts_with (lit "Usage: ") (stderr o) \/
    starts_with (lit "Error: ") (stderr o)) /\
   exists message, stderr o = message ++ newline).
Proof.
  unfold starts_with. intro Hm.
  destruct (main_cases env)
    as [[_ E] | [[_ [_ E]] | [[_ [_ [_ E]]] | [[_ [_ [report [_ E]]]]
       | [[_ [e [_ E]]] | [[_ [rs [_ [_ E]]]]
       | [[_ [rs [e [_ [_ [_ E]]]]]] | [_ [rs [_ [_ [_ E]]]]]]]]]]]];
    rewrite E in Hm; try discriminate Hm;
    injection Hm as <-; cbn [stderr]; try (left; reflexivity); right;
    (split; [| unfold write_error; eexists; reflexivity]).
  - left. unfold write_error. cbn. eexists. reflexivity.
  - right. unfold write_error. cbn. eexists. reflexivity.
  - right. unfold write_error. cbn. eexists. reflexivity.
  - right. unfold write_error. cbn. eexists. reflexivity.
  - right. unfold write_error. cbn. eexists. reflexivity.
Qed.

Lemma diagnostics_are_marked_witness :
  stderr (Outcome 1 []
            (write_error (lit "Usage: extract_text_from_image.py <image_path>")))
    = [] \/
  ((starts_with (lit "Usage: ")
      (stderr (Outcome 1 []
         (write_error (lit "Usage: extract_text_from_image.py <image_path>")))) \/
    starts_with (lit "Error: ")
      (stderr (Outcome 1 []
         (write_error (lit "Usage: extract_text_from_image.py <image_path>"))))) /\
   exists message,
     stderr (Outcome 1 []
       (write_error (lit "Usage: extract_text_from_image.py <image_path>")))
     = message ++ newline).
Proof.
  apply (diagnostics_are_marked
           (Environment [lit "extract_text_from_image.py"]
              (fun _ => true) Imported (fun _ => Returns []) (fun _ => None))).
  reflexivity.
Defined.

(* ------------------------------------------------------------------ *)
(** ** The shape of a Line Group *)

Lemma chain_snoc (d : detection) (cur : list detection) (r : detection) :
  cur <> [] -> chain cur -> close r (last cur d) -> chain (cur ++ [r]).
Proof.
  induction cur as [| a cur IH]; intros Hne Hc Hr; [contradiction |].
  destruct cur as [| b cur].
  - cbn. split; [exact Hr | exact I].
  - change ((a :: b :: cur) ++ [r]) with (a :: (b :: cur) ++ [r]).
    destruct Hc as [Hab Hc].
    change (close b a /\ chain ((b :: cur) ++ [r])).
    split; [exact Hab |]. apply IH; [discriminate | exact Hc | exact Hr].
Qed.

Lemma chunks_chain (d : detection) (l : list detection) :
  forall cur ly,
    cur <> [] -> chain cur ->
    ly = get_y_center (d_bbox (last cur d)) ->
    Forall chain (chunks cur ly l).
Proof.
  induction l as [| r rest IH]; intros cur ly Hne Hc Hly; cbn [chunks].
  - constructor; [exact Hc | constructor].
  - destruct (new_line_detected (get_y_center (d_bbox r)) ly) eqn:E.
    + constructor; [exact Hc |].
      apply IH; [discriminate | exact I | reflexivity].
    + apply IH.
      * destruct cur; discriminate.
      * apply (chain_snoc d); [exact Hne | exact Hc |].
        unfold close. rewrite <- Hly. exact E.
      * rewrite last_last. reflexivity.
Qed.

(** X10.  Inside a Line Group the program's test finds every detection
    within the tolerance of the one before it: no group holds a
    neighbouring pair that the test would separate. *)
Theorem line_group_chain (results : list detection) :
  Forall chain (line_groups_of results).
Proof.
  unfold line_groups_of.
  destruct (sorted_results results) as [| r rest]; [constructor |].
  rewrite group_lines_cons.
  apply (chunks_chain r); [discriminate | exact I | reflexivity].
Qed.

(* ------------------------------------------------------------------ *)
(** ** One line, and one line for each detection *)

Lemma chunks_all_close (l : list detection) :
  forall cur x,
    (forall a b, In a (x :: l) -> In b (x :: l) -> close a b) ->
    chunks cur (get_y_center (d_bbox x)) l = [cur ++ l].
Proof.
  induction l as [| r rest IH]; intros cur x H; cbn [chunks].
  - rewrite app_nil_r. reflexivity.
  - assert (E : new_line_detected (get_y_center (d_bbox r))
                  (get_y_center (d_bbox x)) = false).
    { apply (H r x); [right; left; reflexivity | left; reflexivity]. }
    rewrite E, IH.
    + rewrite <- app_assoc. reflexivity.
    + intros a b Ha Hb. apply H; right; assumption.
Qed.

(** X12.  When the program's test separates no two detections of the
    input, in either order, the document is a single line: the texts,
    in sorted order, joined with spaces. *)
Theorem all_close_one_line (results : list detection) :
  results <> [] ->
  (forall a b, In a results -> In b results -> close a b) ->
  line_groups_of results = [sorted_results results] /\
  extracted_text results = join space (List.map d_text (sorted_results results)).
Proof.
  intros Hne H.
  assert (Hg : line_groups_of results = [sorted_results results]).
  { unfold line_groups_of.
    pose proof (sorted_results_perm results) as Hp.
    destruct (sorted_results results) as [| r rest] eqn:Es.
    - apply Permutation_sym, Permutation_nil in Hp. contradiction.
    - rewrite group_lines_cons. apply (chunks_all_close rest [r] r).
      intros a b Ha Hb.
      apply H; apply (Permutation_in _ (Permutation_sym Hp)); assumption. }
  split; [exact Hg |].
  unfold extracted_text. rewrite extracted_lines_of_groups, Hg. reflexivity.
Qed.

Lemma all_close_one_line_witness :
  extracted_text [high_103; low_03] =
  join space (List.map d_text (sorted_results [high_103; low_03])).
Proof.
  apply (all_close_one_line [high_103; low_03]).
  - discriminate.
  - intros a b [<- | [<- | []]] [<- | [<- | []]];
      unfold close; vm_compute; reflexivity.
Defined.

Lemma far_sym (a b : detection) : far a b -> far b a.
Proof. unfold far. tauto. Qed.

Lemma far_pairs_perm (l l' : list detection) :
  Permutation l l' -> ForallOrdPairs far l -> ForallOrdPairs far l'.
Proof.
  induction 1 as [| x l l' Hp IH | x y l | l l' l'' _ IH1 _ IH2]; intro H.
  - exact H.
  - inversion H as [| ? ? Hx Hl]; subst.
    constructor; [eapply Permutation_Forall; eassumption | apply IH; exact Hl].
  - inversion H as [| ? ? Hy Hl]; subst.
    inversion Hl as [| ? ? Hx Hl']; subst.
    inversion Hy as [| ? ? Hyx Hy']; subst.
    constructor.
    + constructor; [apply far_sym; exact Hyx | exact Hx].
    + constructor; assumption.
  - apply IH2, IH1, H.
Qed.

Lemma chunks_all_far (l : list detection) :
  forall cur x,
    ForallOrdPairs far (x :: l) ->
    chunks cur (get_y_center (d_bbox x)) l =
    cur :: List.map (fun r => [r]) l.
Proof.
  induction l as [| r rest IH]; intros cur x H; cbn [chunks List.map].
  - reflexivity.
  - inversion H as [| ? ? Hx Hl]; subst.
    inversion Hx as [| ? ? Hxr _]; subst.
    destruct Hxr as [_ E].
    rewrite E, (IH [r] r Hl). reflexivity.
Qed.

(** X13.  When the program's test separates any two detections of the
    input, whichever of the two comes first, every detection is a line
    of its own: the document is the texts, in sorted order, joined with
    newlines. *)
Theorem all_far_one_line_each (results : list detection) :
  ForallOrdPairs far results ->
  line_groups_of results = List.map (fun r => [r]) (sorted_results results) /\
  extracted_text results =
    join newline (List.map d_text (sorted_results results)).
Proof.
  intro H.
  assert (Hg : line_groups_of results =
               List.map (fun r => [r]) (sorted_results results)).
  { unfold line_groups_of.
    pose proof (far_pairs_perm _ _ (sorted_results_perm results) H) as Hs.
    destruct (sorted_results results) as [| r rest]; [reflexivity |].
    rewrite group_lines_cons. apply chunks_all_far. exact Hs. }
  split; [exact Hg |].
  unfold extracted_text. rewrite extracted_lines_of_groups, Hg, map_map.
  reflexivity.
Qed.

Lemma all_far_one_line_each_witness :
  extracted_text [goodbye one; hello one] =
  join newline (List.map d_text (sorted_results [goodbye one; hello one])).
Proof.
  apply (all_far_one_line_each [goodbye one; hello one]).
  constructor; [constructor; [| constructor] | constructor; constructor].
  split; vm_compute; reflexivity.
Defined.

(* ------------------------------------------------------------------ *)
(** ** The order of the input *)

Lemma filter_perm (f : detection -> bool) (l l' : list detection) :
  Permutation l l' -> Permutation (filter f l) (filter f l').
Proof.
  induction 1 as [| x l l' _ IH | x y l | l l' l'' _ IH1 _ IH2];
    cbn [filter].
  - constructor.
  - destruct (f x); [apply perm_skip |]; exact IH.
  - destruct (f x), (f y);
      try apply Permutation_refl; apply perm_swap.
  - eapply Permutation_trans; eassumption.
Qed.

Lemma short_perm_eq (l l' : list detection) :
  (List.length l <= 1)%nat -> Permutation l l' -> l = l'.
Proof.
  intros Hlen Hp.
  destruct l as [| a [| b l]]; [| | simpl in Hlen; lia].
  - apply Permutation_nil in Hp. symmetry. exact Hp.
  - apply Permutation_length_1_inv in Hp. symmetry. exact Hp.
Qed.

(** X14.  When no key is a NaN and no two detections have the same
    computed key pair, the order of the input does not matter: every
    rearrangement of the input is sorted to the same sequence and gives
    the same document. *)
Theorem input_order_irrelevant_without_ties (results results' : list detection) :
  Forall numeric_keys results ->
  distinct_keys results ->
  Permutation results results' ->
  sorted_results results = sorted_results results' /\
  line_groups_of results = line_groups_of results' /\
  extracted_text results = extracted_text results'.
Proof.
  intros Hn Hd Hp.
  assert (Hn' : Forall numeric_keys results')
    by (eapply Permutation_Forall; eassumption).
  assert (Hs : sorted_results results = sorted_results results').
  { apply stable_sorted_unique.
    - apply sorted_results_numeric. exact Hn.
    - apply sorted_results_numeric. exact Hn'.
    - apply sorted_results_sorted. exact Hn.
    - apply sorted_results_sorted. exact Hn'.
    - intro k.
      rewrite (sorted_results_filter k results Hn).
      rewrite (sorted_results_filter k results' Hn').
      apply short_perm_eq; [apply Hd | apply filter_perm; exact Hp]. }
  unfold extracted_text, line_groups_of. rewrite Hs.
  repeat split; reflexivity.
Qed.

Lemma input_order_irrelevant_without_ties_witness :
  extracted_text [rising 0 "a"; falling 0 "b"; goodbye one] =
  extracted_text [goodbye one; rising 0 "a"; falling 0 "b"].
Proof.
  apply (input_order_irrelevant_without_ties
           [rising 0 "a"; falling 0 "b"; goodbye one]
           [goodbye one; rising 0 "a"; falling 0 "b"]).
  - repeat (constructor; [split; reflexivity |]). constructor.
  - intro k. cbn [filter].
    destruct (has_key k (rising 0 "a")) eqn:K1;
      destruct (has_key k (falling 0 "b")) eqn:K2;
      destruct (has_key k (goodbye one)) eqn:K3;
      cbn [List.length]; try lia; exfalso;
      repeat match goal with
             | H : has_key _ _ = true |- _ =>
                 apply has_key_true in H;
                 destruct H as (_ & _ & _ & H & _);
                 vm_compute in H
             end; lia.
  - apply Permutation_sym.
    change [goodbye one; rising 0 "a"; falling 0 "b"]
      with ([goodbye one] ++ [rising 0 "a"; falling 0 "b"]).
    apply (Permutation_app_comm [goodbye one] [rising 0 "a"; falling 0 "b"]).
Defined.

(* ------------------------------------------------------------------ *)
(** ** Input that is sorted already *)

(** X17.  An input without NaN keys that is in the order of the
    computed keys already is left as it is by the sort, ties included,
    so the Line Groups cut the input itself; in particular, sorting
    twice is sorting once. *)
Theorem sorted_input_is_kept (results : list detection) :
  Forall numeric_keys results ->
  (StronglySorted by_key results ->
   sorted_results results = results /\
   List.concat (line_groups_of results) = results) /\
  sorted_results (sorted_results results) = sorted_results results /\
  extracted_text (sorted_results results) = extracted_text results.
Proof.
  intro Hn.
  assert (Hkeep : forall l, Forall numeric_keys l -> StronglySorted kle l ->
                            sorted_results l = l).
  { intros l Hl Hs. symmetry. apply sorted_results_unique; try assumption.
    intro k. reflexivity. }
  pose proof (sorted_results_sorted results Hn) as Hs.
  pose proof (sorted_results_numeric results Hn) as Hn'.
  split; [| split].
  - intro H. apply (sorted_by_key_kle results Hn) in H.
    split; [apply Hkeep; assumption |].
    unfold line_groups_of. rewrite (Hkeep _ Hn H). apply group_lines_concat.
  - apply Hkeep; assumption.
  - unfold extracted_text, line_groups_of. rewrite (Hkeep _ Hn' Hs). reflexivity.
Qed.

Lemma sorted_input_is_kept_witness :
  sorted_results [tie_b one; tie_a one; goodbye one] =
  [tie_b one; tie_a one; goodbye one].
Proof.
  refine (proj1 (proj1 (sorted_input_is_kept
                          [tie_b one; tie_a one; goodbye one] _) _)).
  - repeat (constructor; [split; reflexivity |]). constructor.
  - constructor.
    + constructor.
      * constructor; [constructor | constructor].
      * constructor; [left; vm_compute; reflexivity | constructor].
    + constructor; [right; split; vm_compute; reflexivity |].
      constructor; [left; vm_compute; reflexivity | constructor].
Defined.

(* ------------------------------------------------------------------ *)
(** ** Blocks one above the other *)

Lemma sorted_app (l1 l2 : list detection) :
  StronglySorted kle l1 -> StronglySorted kle l2 ->
  (forall a b, In a l1 -> In b l2 -> kle a b) ->
  StronglySorted kle (l1 ++ l2).
Proof.
  intros H1 H2 H. induction H1 as [| x l1 Hs IH Hall]; [exact H2 |].
  cbn [app]. constructor.
  - apply IH. intros a b Ha Hb. apply H; [right; exact Ha | exact Hb].
  - apply Forall_app. split; [exact Hall |].
    apply Forall_forall. intros b Hb. apply H; [left; reflexivity | exact Hb].
Qed.

Lemma glue_from_app_break (r' : detection) (rest' l : list detection) :
  forall ly,
    new_line_detected (get_y_center (d_bbox r')) ly = true ->
    (forall a, In a l ->
               new_line_detected (get_y_center (d_bbox r'))
                                 (get_y_center (d_bbox a)) = true) ->
    glue_from ly (l ++ r' :: rest') =
    glue_from ly l ++ newline ++ glue (r' :: rest').
Proof.
  induction l as [| a l IH]; intros ly Hly H; cbn [app glue_from].
  - rewrite Hly. reflexivity.
  - rewrite IH.
    + rewrite <- !app_assoc. reflexivity.
    + apply H. left. reflexivity.
    + intros b Hb. apply H. right. exact Hb.
Qed.

Lemma chunks_app_break (r' : detection) (rest' l : list detection) :
  forall cur ly,
    new_line_detected (get_y_center (d_bbox r')) ly = true ->
    (forall a, In a l ->
               new_line_detected (get_y_center (d_bbox r'))
                                 (get_y_center (d_bbox a)) = true) ->
    chunks cur ly (l ++ r' :: rest') =
    chunks cur ly l ++ chunks [r'] (get_y_center (d_bbox r')) rest'.
Proof.
  induction l as [| a l IH]; intros cur ly Hly H; cbn [app chunks].
  - rewrite Hly. reflexivity.
  - assert (Ha : new_line_detected (get_y_center (d_bbox r'))
                                   (get_y_center (d_bbox a)) = true)
      by (apply H; left; reflexivity).
    assert (Hl : forall b, In b l ->
                 new_line_detected (get_y_center (d_bbox r'))
                                   (get_y_center (d_bbox b)) = true)
      by (intros b Hb; apply H; right; exact Hb).
    destruct (new_line_detected (get_y_center (d_bbox a)) ly).
    + rewrite (IH [a] _ Ha Hl). reflexivity.
    + apply IH; assumption.
Qed.

Lemma sorted_results_of_blocks (upper lower : list detection) :
  Forall numeric_keys upper -> Forall numeric_keys lower ->
  (forall a b, In a upper -> In b lower ->
               F64.ltb (get_y_center (d_bbox a)) (get_y_center (d_bbox b)) = true) ->
  sorted_results (upper ++ lower) = sorted_results upper ++ sorted_results lower /\
  sorted_results (lower ++ upper) = sorted_results upper ++ sorted_results lower.
Proof.
  intros Hu Hl H.
  pose proof (sorted_results_perm upper) as Pu.
  pose proof (sorted_results_perm lower) as Pl.
  assert (Hn : Forall numeric_keys (sorted_results upper ++ sorted_results lower)).
  { apply Forall_app. split; apply sorted_results_numeric; assumption. }
  assert (Hs : StronglySorted kle
                 (sorted_results upper ++ sorted_results lower)).
  { apply sorted_app; try (apply sorted_results_sorted; assumption).
    intros a b Ha Hb. left. unfold sort_key. cbn [fst].
    apply (Permutation_in _ (Permutation_sym Pu)) in Ha.
    apply (Permutation_in _ (Permutation_sym Pl)) in Hb.
    specialize (H a b Ha Hb). apply ltb_rank in H. apply H. }
  assert (Hf : forall k,
             filter (has_key k) (sorted_results upper ++ sorted_results lower) =
             filter (has_key k) upper ++ filter (has_key k) lower).
  { intro k. rewrite filter_app.
    rewrite (sorted_results_filter k upper Hu).
    rewrite (sorted_results_filter k lower Hl). reflexivity. }
  split; symmetry; apply sorted_results_unique; try exact Hs; try exact Hn;
    try (apply Forall_app; split; assumption);
    intro k; rewrite Hf, filter_app; [reflexivity |].
  destruct (filter (has_key k) upper) as [| a fa] eqn:Ea;
    [rewrite app_nil_r; reflexivity |].
  destruct (filter (has_key k) lower) as [| b fb] eqn:Eb;
    [rewrite app_nil_r; reflexivity |].
  exfalso.
  assert (Ha : In a (filter (has_key k) upper)) by (rewrite Ea; left; reflexivity).
  assert (Hb : In b (filter (has_key k) lower)) by (rewrite Eb; left; reflexivity).
  apply filter_In in Ha. apply filter_In in Hb.
  destruct Ha as [Ha Ka], Hb as [Hb Kb].
  apply has_key_true in Ka. apply has_key_true in Kb.
  destruct Ka as (_ & _ & _ & Ka & _), Kb as (_ & _ & _ & Kb & _).
  specialize (H a b Ha Hb). apply ltb_rank in H.
  destruct H as (_ & _ & H). ranks. lia.
Qed.

(** X18.  Two blocks of detections without NaN keys, every detection of
    the lower block with a larger computed centre than every detection
    of the upper block and separated from it by the program's test, are
    reconstructed one after the other: the Line Groups are those of the
    upper block followed by those of the lower block, and the document
    is the upper document, a newline and the lower document, whichever
    block comes first in the input. *)
Theorem blocks_compose (upper lower : list detection) :
  upper <> [] -> lower <> [] ->
  Forall numeric_keys upper -> Forall numeric_keys lower ->
  (forall a b, In a upper -> In b lower ->
     F64.ltb (get_y_center (d_bbox a)) (get_y_center (d_bbox b)) = true /\
     new_line_detected (get_y_center (d_bbox b)) (get_y_center (d_bbox a)) = true) ->
  line_groups_of (upper ++ lower) = line_groups_of upper ++ line_groups_of lower /\
  extracted_text (upper ++ lower) =
    extracted_text upper ++ newline ++ extracted_text lower /\
  extracted_text (lower ++ upper) = extracted_text (upper ++ lower).
Proof.
  intros Hu Hl Nu Nl H.
  destruct (sorted_results_of_blocks upper lower Nu Nl
              (fun a b Ha Hb => proj1 (H a b Ha Hb))) as [S1 S2].
  assert (Hsame : extracted_text (lower ++ upper) = extracted_text (upper ++ lower)).
  { unfold extracted_text, line_groups_of. rewrite S1, S2. reflexivity. }
  pose proof (sorted_results_perm upper) as Pu.
  pose proof (sorted_results_perm lower) as Pl.
  assert (H' : forall a b,
             In a (sorted_results upper) -> In b (sorted_results lower) ->
             new_line_detected (get_y_center (d_bbox b))
                               (get_y_center (d_bbox a)) = true).
  { intros a b Ha Hb.
    apply H; [apply (Permutation_in _ (Permutation_sym Pu)); exact Ha
             | apply (Permutation_in _ (Permutation_sym Pl)); exact Hb]. }
  split; [| split; [| exact Hsame]].
  - unfold line_groups_of. rewrite S1.
    destruct (sorted_results upper) as [| a l];
      [apply Permutation_sym, Permutation_nil in Pu; contradiction |].
    destruct (sorted_results lower) as [| r' rest'];
      [apply Permutation_sym, Permutation_nil in Pl; contradiction |].
    cbn [app]. rewrite !group_lines_cons.
    apply chunks_app_break.
    + apply H'; left; reflexivity.
    + intros b Hb. apply H'; [right; exact Hb | left; reflexivity].
  - rewrite !extracted_text_glue, S1.
    destruct (sorted_results upper) as [| a l];
      [apply Permutation_sym, Permutation_nil in Pu; contradiction |].
    destruct (sorted_results lower) as [| r' rest'];
      [apply Permutation_sym, Permutation_nil in Pl; contradiction |].
    cbn [app]. unfold glue at 1 2.
    rewrite glue_from_app_break.
    + rewrite <- !app_assoc. reflexivity.
    + apply H'; left; reflexivity.
    + intros b Hb. apply H'; [right; exact Hb | left; reflexivity].
Qed.

Lemma blocks_compose_witness :
  extracted_text ([world one; hello one] ++ [goodbye one]) =
  extracted_text [world one; hello one] ++ newline ++ extracted_text [goodbye one].
Proof.
  apply (blocks_compose [world one; hello one] [goodbye one]).
  - discriminate.
  - discriminate.
  - repeat (constructor; [split; reflexivity |]). constructor.
  - repeat (constructor; [split; reflexivity |]). constructor.
  - intros a b [<- | [<- | []]] [<- | []]; split; vm_compute; reflexivity.
Defined.

(* ------------------------------------------------------------------ *)
(** ** Keys that are numbers *)

Lemma shr_1_nonneg (mrs : shr_record) :
  (0 <= shr_m mrs)%Z -> (0 <= shr_m (shr_1 mrs))%Z.
Proof.
  destruct mrs as [m r s]. cbn [shr_m].
  destruct m as [| [p | p |] | p]; cbn; lia.
Qed.

Lemma iter_pos_nonneg (n : positive) :
  forall mrs, (0 <= shr_m mrs)%Z -> (0 <= shr_m (iter_pos shr_1 n mrs))%Z.
Proof.
  induction n as [n IH | n IH |]; intros mrs H; cbn [iter_pos].
  - apply IH, IH, shr_1_nonneg, H.
  - apply IH, IH, H.
  - apply shr_1_nonneg, H.
Qed.

Lemma shr_fexp_nonneg (m e : Z) (l : location) :
  (0 <= m)%Z -> (0 <= shr_m (fst (shr_fexp F64.prec F64.emax m e l)))%Z.
Proof.
  intro H. unfold shr_fexp, shr.
  assert (H0 : (0 <= shr_m (shr_record_of_loc m l))%Z)
    by (destruct l as [| []]; exact H).
  destruct (fexp F64.prec F64.emax (Zdigits2 m + e) - e)%Z; cbn [fst];
    try exact H0.
  apply iter_pos_nonneg. exact H0.
Qed.

Lemma round_nearest_even_nonneg (m : Z) (l : location) :
  (0 <= m)%Z -> (0 <= round_nearest_even m l)%Z.
Proof.
  intro H. destruct l as [| []]; cbn [round_nearest_even]; try lia.
  destruct (Z.even m); lia.
Qed.

Lemma binary_round_aux_number (sx : bool) (mx ex : Z) (lx : location) :
  (0 <= mx)%Z -> number (binary_round_aux F64.prec F64.emax sx mx ex lx).
Proof.
  intro H. unfold binary_round_aux.
  pose proof (shr_fexp_nonneg mx ex lx H) as H1.
  destruct (shr_fexp F64.prec F64.emax mx ex lx) as [mrs' e'].
  cbn [fst] in H1.
  pose proof (shr_fexp_nonneg _ e' loc_Exact
                (round_nearest_even_nonneg _ (loc_of_shr_record mrs') H1)) as H2.
  destruct (shr_fexp F64.prec F64.emax
              (round_nearest_even (shr_m mrs') (loc_of_shr_record mrs'))
              e' loc_Exact) as [mrs'' e''].
  cbn [fst] in H2.
  destruct (shr_m mrs'') as [| p | p]; [reflexivity | | lia].
  destruct (e'' <=? F64.emax - F64.prec)%Z; reflexivity.
Qed.

Lemma binary_normalize_number (m e : Z) (szero : bool) :
  number (binary_normalize F64.prec F64.emax m e szero).
Proof.
  unfold binary_normalize, binary_round.
  destruct m as [| p | p]; [reflexivity | |];
    match goal with
    | |- context [shl_align ?a ?b ?c] => destruct (shl_align a b c) as [mz ez]
    end;
    apply binary_round_aux_number; lia.
Qed.

Lemma add_number (a b : F64.float) :
  number a -> finite b = true -> number (F64.add a b).
Proof.
  intros Na Fb. unfold F64.add, SFadd.
  destruct a as [sa | sa | | sa ma ea]; try discriminate Na;
    destruct b as [sb | sb | | sb mb eb]; try discriminate Fb;
    try reflexivity.
  - destruct sa, sb; reflexivity.
  - apply binary_normalize_number.
Qed.

Lemma div_by_four_number (a : F64.float) :
  number a -> number (F64.div a (F64.of_int 4)).
Proof.
  intro Na.
  change (F64.of_int 4) with (S754_finite false 4503599627370496 (-50)).
  unfold F64.div, SFdiv.
  destruct a as [sa | sa | | sa ma ea]; try discriminate Na; try reflexivity.
  unfold SFdiv_core_binary.
  match goal with
  | |- context [Z.div_eucl ?x ?y] =>
      pose proof (Z_div_mod x y ltac:(lia)) as Hd;
      assert (Hx : (0 <= x)%Z);
      [| destruct (Z.div_eucl x y) as [q r] ]
  end.
  - match goal with
    | |- (0 <= match ?s with _ => _ end)%Z => destruct s
    end; try lia.
    apply Z.shiftl_nonneg. lia.
  - apply binary_round_aux_number. nia.
Qed.

Lemma finite_number (f : F64.float) : finite f = true -> number f.
Proof. destruct f; try discriminate; reflexivity. Qed.

(** X19.  A detection whose eight coordinates are finite (no infinity,
    no NaN) has keys that are numbers: its vertical centre may overflow
    to an infinity but is never a NaN, and its xMin is one of its
    x-coordinates. *)
Theorem finite_coordinates_numeric_keys (r : detection) :
  Forall (fun p => finite (fst p) = true /\ finite (snd p) = true)
         (points (d_bbox r)) ->
  numeric_keys r.
Proof.
  intro H. unfold points in H.
  inversion H as [| ? ? [X1 Y1] H2]; subst.
  inversion H2 as [| ? ? [X2 Y2] H3]; subst.
  inversion H3 as [| ? ? [X3 Y3] H4]; subst.
  inversion H4 as [| ? ? [X4 Y4] _]; subst.
  split.
  - rewrite get_y_center_written_out. apply div_by_four_number.
    repeat (apply add_number; [| assumption]). reflexivity.
  - destruct (get_x_min_least (d_bbox r)) as [_ Hex].
    unfold points in Hex.
    inversion Hex as [? ? E | ? ? Hex2]; subst;
      [rewrite E; apply finite_number; assumption |].
    inversion Hex2 as [? ? E | ? ? Hex3]; subst;
      [rewrite E; apply finite_number; assumption |].
    inversion Hex3 as [? ? E | ? ? Hex4]; subst;
      [rewrite E; apply finite_number; assumption |].
    inversion Hex4 as [? ? E | ? ? Hex5]; subst;
      [rewrite E; apply finite_number; assumption | inversion Hex5].
Qed.

Lemma finite_coordinates_numeric_keys_witness : numeric_keys (falling 20 "b").
Proof.
  apply finite_coordinates_numeric_keys.
  repeat (constructor; [split; reflexivity |]). constructor.
Defined.
